(** * gv_daemon: edge detection and dispatch for the SideWinder Game Voice

    A shallow embedding of [gv_daemon.py].  Python integers are [Z], the
    bit operations are [Z.lxor] and [Z.land], the values loaded from the
    YAML mapping file are a small inductive type, and effectful code lives
    in a writer-plus-exception monad [M]: the trace records what the
    daemon does to the outside world, the result is either a value or the
    Python exception that escaped. *)

From Stdlib Require Import ZArith List String Ascii Bool Lia Permutation.
From Stdlib Require Import Sorted HexString.
Import ListNotations.

Set Warnings "-register-all".

Open Scope string_scope.
Open Scope list_scope.
Open Scope Z_scope.

(** ** Python values and effects *)

(** What [yaml.safe_load] can return.  Mappings are association lists in
    document order; only string keys are represented, which loses nothing
    for the lookups of the daemon (all of them are by string literal or by
    event name). *)
Inductive yaml : Type :=
| YNull
| YBool (b : bool)
| YInt (z : Z)
| YStr (s : string)
| YSeq (l : list yaml)
| YMap (m : list (string * yaml)).

(** The exceptions that the daemon can meet. *)
Inductive exn : Type :=
| KeyError (key : yaml)
| TypeError
| AttributeError
| NameError (name : string)
| ValueError (msg : string)
| YAMLError
| OSError
| BlockingIOError
| KeyboardInterrupt
| SystemExit (code : Z).

(** Payload posted to Node-RED by [emit_to_nodered].  The ["ts"] field
    (a float wall-clock time) is left out. *)
Record payload : Type := mkPayload {
  pl_event : string;
  pl_edge : string;
  pl_mask_hex : string;
  pl_mask_int : Z;
  pl_active : list string
}.

(** What [os.read(fd, 1)] can do on the non-blocking descriptor. *)
Inductive read_result : Type :=
| RData (b : Byte.byte)
| REmpty
| RBlocking
| RError.

(** Observable actions, in the order the daemon performs them.
    [UiWrite code value] is [ui.write(E.EV_KEY, code, value)], [Post p] is
    the attempt to deliver [p] to Node-RED, and [Popen cmd] is a command
    that has been launched. *)
Inductive event : Type :=
| Print (line : string)
| PrintErr (line : string)
| UiOpen
| FdOpen (node : string)
| UiWrite (code : Z) (value : Z)
| UiSyn
| Popen (cmd : yaml)
| Post (p : payload)
| OsRead (r : read_result)
| Sleep
| UiClose
| FdClose.

(** How the operating system can refuse the launch of a command: the
    pipe that reports a failed [exec] cannot be created (OSError, before
    the arguments are encoded), [fork] or [exec] of the shell fails
    (OSError), or [fork] fails with EAGAIN (BlockingIOError). *)
Inductive launch_failure : Type :=
| NoPipe
| LaunchOSError
| LaunchBlocked.

(** What the outside does while one edge is handled: whether the
    [requests] module was imported, the message of the exception that the
    delivery to Node-RED raises (if it raises one), and the failure of the
    launch of the command (if it fails). *)
Record sinks : Type := mkSinks {
  have_requests : bool;
  post_error : option string;
  launch_error : option launch_failure
}.

(** An outside in which the delivery and the launch succeed. *)
Definition quiet_sinks : sinks :=
  {| have_requests := true;
     post_error := None;
     launch_error := None |}.

Module Py.

Definition M (A : Type) : Type := (list event * (exn + A))%type.

Definition ret {A} (a : A) : M A := ([], inr a).

Definition raise {A} (e : exn) : M A := ([], inl e).

Definition emit (ev : event) : M unit := ([ev], inr tt).

Definition bind {A B} (m : M A) (k : A -> M B) : M B :=
  match m with
  | (tr, inl e) => (tr, inl e)
  | (tr, inr a) => let '(tr', r) := k a in (tr ++ tr', r)
  end.

Definition trace {A} (m : M A) : list event := fst m.

Definition result {A} (m : M A) : exn + A := snd m.

(** [for x in xs: body], threading the loop state. *)
Fixpoint foldM {A S} (body : S -> A -> M S) (xs : list A) (s : S) : M S :=
  match xs with
  | [] => ret s
  | x :: xs' => bind (body s x) (foldM body xs')
  end.

(** [for x in xs: body] for a body without loop state. *)
Definition forM_ {A} (xs : list A) (body : A -> M unit) : M unit :=
  foldM (fun _ x => body x) xs tt.

(** Truth value of an [int]. *)
Definition truthy_int (z : Z) : bool := negb (z =? 0).

(** Truth value of a loaded YAML value. *)
Definition truthy (v : yaml) : bool :=
  match v with
  | YNull => false
  | YBool b => b
  | YInt z => truthy_int z
  | YStr s => negb (String.eqb s "")
  | YSeq l => match l with [] => false | _ => true end
  | YMap m => match m with [] => false | _ => true end
  end.

(** Lookup in a [dict] with string keys. *)
Fixpoint dict_get {V} (m : list (string * V)) (k : string) : option V :=
  match m with
  | [] => None
  | (k', v) :: m' => if String.eqb k k' then Some v else dict_get m' k
  end.

(** [d[k]]. *)
Definition getitem (d : yaml) (k : string) : M yaml :=
  match d with
  | YMap m =>
      match dict_get m k with
      | Some v => ret v
      | None => raise (KeyError (YStr k))
      end
  | _ => raise TypeError
  end.

(** [d.get(k, default)]; only a [dict] has the method. *)
Definition get (d : yaml) (k : string) (default : yaml) : M yaml :=
  match d with
  | YMap m =>
      match dict_get m k with
      | Some v => ret v
      | None => ret default
      end
  | _ => raise AttributeError
  end.

Fixpoint chars (s : string) : list string :=
  match s with
  | EmptyString => []
  | String c s' => String c EmptyString :: chars s'
  end.

(** The items a [for] loop (or [reversed]) sees in a loaded value. *)
Definition iter (v : yaml) : M (list yaml) :=
  match v with
  | YSeq l => ret l
  | YStr s => ret (map YStr (chars s))
  | YMap m => ret (map (fun kv => YStr (fst kv)) m)
  | _ => raise TypeError
  end.

(** Left-justify in a field of [width] characters ([{s:12s}]). *)
Definition ljust (width : nat) (s : string) : string :=
  (s ++ String.concat "" (repeat " " (width - String.length s)))%string.

(** Right-justify with zeros. *)
Definition zfill (width : nat) (s : string) : string :=
  (String.concat "" (repeat "0" (width - String.length s)) ++ s)%string.

Definition hex_digits (n : N) : string :=
  match n with
  | N0 => "0"
  | Npos p => HexString.Raw.of_pos p ""
  end.

(** [f"{z:02x}"]: the sign counts for the width. *)
Definition format_02x (z : Z) : string :=
  if z <? 0 then ("-" ++ zfill 1 (hex_digits (Z.abs_N z)))%string
  else zfill 2 (hex_digits (Z.abs_N z)).

End Py.

Notation "x <- c1 ;; c2" := (Py.bind c1 (fun x => c2))
  (at level 61, c1 at next level, right associativity).
Notation "c1 ;;; c2" := (Py.bind c1 (fun _ => c2))
  (at level 61, right associativity).

(** ** The bit field *)

Definition BIT_ALL : Z := 0x01.
Definition BIT_TEAM : Z := 0x02.
Definition BIT_CH1 : Z := 0x04.
Definition BIT_CH2 : Z := 0x08.
Definition BIT_CH3 : Z := 0x10.
Definition BIT_CH4 : Z := 0x20.
Definition BIT_CMD : Z := 0x40.
Definition BIT_MUTE : Z := 0x80.

(** The dict literal, in insertion order (which is the order in which
    [BIT_NAMES.items()] iterates). *)
Definition BIT_NAMES : list (Z * string) :=
  [ (BIT_ALL, "all"); (BIT_TEAM, "team"); (BIT_CH1, "chan1");
    (BIT_CH2, "chan2"); (BIT_CH3, "chan3"); (BIT_CH4, "chan4");
    (BIT_CMD, "command"); (BIT_MUTE, "mute") ].

Definition PRINT_ORDER : list Z :=
  [BIT_MUTE; BIT_CMD; BIT_ALL; BIT_TEAM; BIT_CH1; BIT_CH2; BIT_CH3; BIT_CH4].

Fixpoint bit_name (names : list (Z * string)) (bit : Z) : option string :=
  match names with
  | [] => None
  | (b, n) :: names' => if bit =? b then Some n else bit_name names' bit
  end.

(** [BIT_NAMES[bit]]. *)
Definition BIT_NAMES_getitem (bit : Z) : Py.M string :=
  match bit_name BIT_NAMES bit with
  | Some n => Py.ret n
  | None => Py.raise (KeyError (YInt bit))
  end.

(** ** Decoding *)

Definition edge_of (curr_mask bit : Z) : string :=
  if Py.truthy_int (Z.land curr_mask bit) then "on" else "off".

Definition decode_edges (prev_mask curr_mask : Z)
  : Py.M (list (string * Z * string)) :=
  let changed := Z.lxor prev_mask curr_mask in
  Py.foldM
    (fun events bit =>
       if Py.truthy_int (Z.land changed bit) then
         base <- BIT_NAMES_getitem bit ;;
         let edge := edge_of curr_mask bit in
         Py.ret (events ++ [((base ++ "_" ++ edge)%string, bit, edge)])
       else Py.ret events)
    PRINT_ORDER [].

Definition decode_edges0 (prev_mask curr_mask : Z)
  : Py.M (list (string * string)) :=
  Py.emit (Print "") ;;;
  let changed := Z.lxor prev_mask curr_mask in
  events <- Py.foldM
    (fun events (item : Z * string) =>
       let '(bit, base) := item in
       if Py.truthy_int (Z.land changed bit) then
         let edge := edge_of curr_mask bit in
         Py.ret (events ++ [((base ++ "_" ++ edge)%string, edge)])
       else Py.ret events)
    BIT_NAMES [] ;;
  Py.ret (events ++ [(("mask_" ++ Py.format_02x curr_mask)%string, "state")]).

Definition active_set (mask : Z) : Py.M (list string) :=
  Py.foldM
    (fun names bit =>
       if Py.truthy_int (Z.land mask bit) then
         n <- BIT_NAMES_getitem bit ;;
         Py.ret (names ++ [n])
       else Py.ret names)
    PRINT_ORDER [].

Definition fmt_mask (mask : Z) : Py.M string :=
  names <- active_set mask ;;
  match names with
  | [] => Py.ret ("0x" ++ Py.format_02x mask ++ " [none]")%string
  | _ =>
      Py.ret ("0x" ++ Py.format_02x mask ++ " ["
                ++ String.concat ", " names ++ "]")%string
  end.

(** ** Configuration constants *)

Definition HIDRAW_OVERRIDE : option string := Some "/dev/hidraw0".
Definition VID_HEX : string := "045e".
Definition PID_HEX : string := "003b".
Definition NR_ENABLED : bool := true.

(** ** The outside world *)

(** What [open(path)] followed by [yaml.safe_load] finds. *)
Inductive map_file : Type :=
| NoFile
| BadSyntax
| Doc (data : yaml).

(** The environment of one run: what device discovery would return, whether
    the uinput device and the hidraw node can be opened, the mapping
    file, and what the sinks do in the first, second, ... pass of the poll
    loop while the edge of a given event name is handled. *)
Record world : Type := mkWorld {
  discover : option string;
  uinput_ok : bool;
  node_ok : string -> bool;
  gvmap : map_file;
  outside : nat -> string -> sinks
}.

(** One pass through the body of [while True]: the outcome of [os.read],
    and, for [Interrupted], the number of observable actions of the pass
    that happen before Ctrl+C is delivered. *)
Inductive tick : Type :=
| Tick (r : read_result)
| Interrupted (r : read_result) (n : nat).

Inductive flow : Type := Continue | Fallthrough.

Inductive main_result : Type :=
| Returned
| Running (prev : option Z).

Inductive outcome : Type :=
| Alive
| Exit (code : Z).

(** Exit status of the interpreter: [sys.exit(n)] gives [n], any other
    exception that leaves [main] gives 1, a normal return gives 0. *)
Definition exit_status (r : exn + main_result) : outcome :=
  match r with
  | inr (Running _) => Alive
  | inr Returned => Exit 0
  | inl (SystemExit c) => Exit c
  | inl _ => Exit 1
  end.

Definition byte_value (b : Byte.byte) : Z := Z.of_N (Byte.to_N b).

Definition is_str (v : yaml) (s : string) : bool :=
  match v with
  | YStr s' => String.eqb s' s
  | _ => false
  end.

Definition opt_truthy (o : option string) : bool :=
  match o with
  | Some s => negb (String.eqb s "")
  | None => false
  end.

Definition is_BlockingIOError (e : exn) : bool :=
  match e with BlockingIOError => true | _ => false end.

Definition is_KeyboardInterrupt (e : exn) : bool :=
  match e with KeyboardInterrupt => true | _ => false end.

(** [try: m except E: handler]. *)
Definition try_except {A} (m : Py.M A) (handles : exn -> bool)
    (handler : Py.M A) : Py.M A :=
  match m with
  | (tr, inl e) =>
      if handles e then let '(tr', r) := handler in (tr ++ tr', r) else m
  | _ => m
  end.

(** [try: m finally: final]. *)
Definition try_finally {A} (m : Py.M A) (final : Py.M unit) : Py.M A :=
  let '(tr, r) := m in
  match final with
  | (tr', inl e) => (tr ++ tr', inl e)
  | (tr', inr _) => (tr ++ tr', r)
  end.

(** Ctrl+C after the first [n] observable actions of [m]; when [m] has
    fewer, an exception of [m] itself comes first, and otherwise the
    interrupt arrives as [m] ends. *)
Definition interrupt_after {A} (n : nat) (m : Py.M A) : Py.M A :=
  let '(tr, r) := m in
  if (n <? List.length tr)%nat then (firstn n tr, inl KeyboardInterrupt)
  else match r with
       | inl e => (tr, inl e)
       | inr _ => (tr, inl KeyboardInterrupt)
       end.

(** ** Loading the bindings *)

Definition load_map (f : map_file) : Py.M yaml :=
  match f with
  | NoFile => Py.raise OSError
  | BadSyntax => Py.raise YAMLError
  | Doc data =>
      match data with
      | YMap m =>
          match Py.dict_get m "bindings" with
          | Some bindings => Py.ret bindings
          | None =>
              Py.raise (ValueError "Top-level 'bindings' missing in mapping file.")
          end
      | _ => Py.raise (ValueError "Top-level 'bindings' missing in mapping file.")
      end
  end.

(** ** Notification *)

(** The POST goes out through [requests] or, without it, through [curl];
    both attempts are the event [Post].  An exception of the delivery is
    caught inside the function and reported on stdout. *)
Definition emit_to_nodered (sk : sinks) (event_name edge : string) (mask : Z)
  : Py.M unit :=
  if negb NR_ENABLED then Py.ret tt
  else
    active <- active_set mask ;;
    let p := {| pl_event := event_name;
                pl_edge := edge;
                pl_mask_hex := Py.format_02x mask;
                pl_mask_int := mask;
                pl_active := active |} in
    Py.emit (Post p) ;;;
    match post_error sk with
    | None => Py.ret tt
    | Some msg =>
        if have_requests sk then
          Py.emit (Print ("[GV] WARN: Node-RED POST failed: " ++ msg)%string)
        else
          Py.emit (Print ("[GV] WARN: curl POST failed: " ++ msg)%string)
    end.

(** ** Launching a command *)

Fixpoint has_nul (s : string) : bool :=
  match s with
  | EmptyString => false
  | String c s' => Ascii.eqb c zero || has_nul s'
  end.

(** One argument of the command line: it must be a string, without a NUL
    character. *)
Definition shell_arg (v : yaml) : Py.M string :=
  match v with
  | YStr s => if has_nul s then Py.raise (ValueError "embedded null byte")
              else Py.ret s
  | _ => Py.raise TypeError
  end.

Fixpoint shell_args (l : list yaml) : Py.M (list string) :=
  match l with
  | [] => Py.ret []
  | v :: l' =>
      a <- shell_arg v ;;
      args <- shell_args l' ;;
      Py.ret (a :: args)
  end.

(** [list(args)] in [Popen(cmd, shell=True)]: the arguments that follow
    ["/bin/sh"; "-c"] are the string itself, or the items of a list (the
    keys of a mapping); anything else cannot be iterated. *)
Definition shell_items (cmd : yaml) : Py.M (list yaml) :=
  match cmd with
  | YStr _ => Py.ret [cmd]
  | YSeq l => Py.ret l
  | YMap m => Py.ret (map (fun kv => YStr (fst kv)) m)
  | _ => Py.raise TypeError
  end.

Definition launch_exn (f : launch_failure) : exn :=
  match f with
  | NoPipe | LaunchOSError => OSError
  | LaunchBlocked => BlockingIOError
  end.

(** [subprocess.Popen(cmd, shell=True)]: the arguments are listed, the
    error pipe is created, the arguments are encoded, and the shell is
    started. *)
Definition popen (sk : sinks) (cmd : yaml) : Py.M unit :=
  items <- shell_items cmd ;;
  match launch_error sk with
  | Some NoPipe => Py.raise (launch_exn NoPipe)
  | failure =>
      shell_args items ;;;
      match failure with
      | None => Py.emit (Popen cmd)
      | Some f => Py.raise (launch_exn f)
      end
  end.

(** ** Dispatch and the poll loop *)

Section Daemon.

(** The table built from the exported [KEY_*] names of [evdev.ecodes]. *)
Variable KEYCODES : string -> option Z.

(** [KEYCODES[k]]. *)
Definition KEYCODES_getitem (k : yaml) : Py.M Z :=
  match k with
  | YStr s =>
      match KEYCODES s with
      | Some code => Py.ret code
      | None => Py.raise (KeyError k)
      end
  | YSeq _ | YMap _ => Py.raise TypeError
  | _ => Py.raise (KeyError k)
  end.

(** [ui.write(E.EV_KEY, KEYCODES[k], value)]. *)
Definition write_key (value : Z) (k : yaml) : Py.M unit :=
  code <- KEYCODES_getitem k ;;
  Py.emit (UiWrite code value).

Definition press_combo (keys : yaml) : Py.M unit :=
  ks <- Py.iter keys ;;
  Py.forM_ ks (write_key 1) ;;;
  ks' <- Py.iter keys ;;
  Py.forM_ (rev ks') (write_key 0) ;;;
  Py.emit UiSyn.

Definition do_action (sk : sinks) (spec : yaml) : Py.M unit :=
  t <- Py.get spec "type" (YStr "key") ;;
  if is_str t "key" then
    keys <- Py.getitem spec "keys" ;;
    press_combo keys
  else if is_str t "shell" then
    cmd <- Py.getitem spec "cmd" ;;
    popen sk cmd
  else Py.ret tt.

(** The body of [for ev_name, bit, edge in decode_edges(prev, curr)]. *)
Definition handle_edge (sk : string -> sinks) (bindings : yaml) (curr : Z)
    (e : string * Z * string) : Py.M unit :=
  let '(ev_name, bit, edge) := e in
  state <- fmt_mask curr ;;
  Py.emit (Print ("[GV] " ++ Py.ljust 12 ev_name
                    ++ "  . state " ++ state)%string) ;;;
  emit_to_nodered (sk ev_name) ev_name edge curr ;;;
  spec <- Py.get bindings ev_name YNull ;;
  if Py.truthy spec then do_action (sk ev_name) spec else Py.ret tt.

(** The whole [for] loop of one cycle. *)
Definition dispatch_edges (sk : string -> sinks) (bindings : yaml)
    (prev curr : Z) : Py.M unit :=
  edges <- decode_edges prev curr ;;
  Py.forM_ edges (handle_edge sk bindings curr).

(** The body of the inner [try]. *)
Definition try_body (sk : string -> sinks) (bindings : yaml)
    (prev : option Z) (r : read_result) : Py.M (option Z * flow) :=
  Py.emit (OsRead r) ;;;
  match r with
  | RBlocking => Py.raise BlockingIOError
  | RError => Py.raise OSError
  | REmpty => Py.ret (prev, Continue)
  | RData b =>
      let curr := byte_value b in
      match prev with
      | None =>
          state <- fmt_mask curr ;;
          Py.emit (Print ("[GV] INIT state = " ++ state)%string) ;;;
          Py.ret (Some curr, Continue)
      | Some p =>
          if curr =? p then Py.ret (prev, Continue)
          else
            dispatch_edges sk bindings p curr ;;;
            Py.ret (Some curr, Fallthrough)
      end
  end.

(** One pass through the body of [while True]; [continue] skips the
    sleep. *)
Definition iteration (sk : string -> sinks) (bindings : yaml)
    (prev : option Z) (r : read_result) : Py.M (option Z) :=
  st <- try_except (try_body sk bindings prev r) is_BlockingIOError
          (Py.ret (prev, Fallthrough)) ;;
  match snd st with
  | Continue => Py.ret (fst st)
  | Fallthrough => Py.emit Sleep ;;; Py.ret (fst st)
  end.

Definition run_tick (sk : string -> sinks) (bindings : yaml)
    (prev : option Z) (t : tick) : Py.M (option Z) :=
  match t with
  | Tick r => iteration sk bindings prev r
  | Interrupted r n => interrupt_after n (iteration sk bindings prev r)
  end.

(** [while True] over the passes the environment supplies, the sinks of
    the first pass being [sks 0]; a normal result means that the daemon is
    still inside the loop. *)
Fixpoint poll_loop (sks : nat -> string -> sinks) (bindings : yaml)
    (prev : option Z) (ticks : list tick) : Py.M (option Z) :=
  match ticks with
  | [] => Py.ret prev
  | t :: ticks' =>
      prev' <- run_tick (sks O) bindings prev t ;;
      poll_loop (fun n => sks (S n)) bindings prev' ticks'
  end.

(** [main] up to and including [load_map()].  With a false override the
    call of [find_hidraw_by_vidpid] first evaluates its arguments, and the
    name [true] is not defined. *)
Definition startup (override : option string) (w : world) : Py.M yaml :=
  node <- (if opt_truthy override then Py.ret override
           else
             verbose <- Py.raise (A := bool) (NameError "true") ;;
             Py.ret (discover w)) ;;
  match (if opt_truthy node then node else None) with
  | None =>
      Py.emit (PrintErr ("[GV] ERROR: hidraw node not found for "
                           ++ VID_HEX ++ ":" ++ PID_HEX ++ ".")%string) ;;;
      Py.raise (SystemExit 3)
  | Some path =>
      Py.emit (Print ("[GV] Using " ++ path)%string) ;;;
      (if uinput_ok w then Py.emit UiOpen else Py.raise OSError) ;;;
      (if node_ok w path then Py.emit (FdOpen path) else Py.raise OSError) ;;;
      bindings <- load_map (gvmap w) ;;
      Py.emit (Print "[GV] Daemon running. Press buttons; readable diagnostics below. Ctrl+C to exit.") ;;;
      Py.ret bindings
  end.

(** The [finally] clause. *)
Definition release : Py.M unit :=
  Py.emit UiClose ;;; Py.emit FdClose.

Definition main_with (override : option string) (w : world)
    (ticks : list tick) : Py.M main_result :=
  bindings <- startup override w ;;
  match poll_loop (outside w) bindings None ticks with
  | (tr, inr prev) => (tr, inr (Running prev))
  | (tr, inl e) =>
      try_finally
        (try_except (tr, inl e) is_KeyboardInterrupt (Py.ret Returned))
        release
  end.

Definition main : world -> list tick -> Py.M main_result :=
  main_with HIDRAW_OVERRIDE.

End Daemon.

(** A few entries of the key table, with the codes of the Linux input
    layer. *)
Definition sample_KEYCODES (name : string) : option Z :=
  if String.eqb name "KEY_LEFTCTRL" then Some 29
  else if String.eqb name "KEY_A" then Some 30
  else if String.eqb name "KEY_LEFTSHIFT" then Some 42
  else if String.eqb name "KEY_M" then Some 50
  else None.

Definition sample_world (f : map_file) : world :=
  {| discover := None; uinput_ok := true; node_ok := fun _ => true;
     gvmap := f; outside := fun _ _ => quiet_sinks |}.

(** ** Vocabulary of the statements *)

Definition edge_name (e : string * Z * string) : string := fst (fst e).
Definition edge_bit (e : string * Z * string) : Z := snd (fst e).
Definition edge_dir (e : string * Z * string) : string := snd e.

(** Whether the flag [bit] (a power of two) differs between two masks. *)
Definition differs (p c bit : Z) : bool :=
  xorb (Z.testbit p (Z.log2 bit)) (Z.testbit c (Z.log2 bit)).

Fixpoint position (bit : Z) (order : list Z) : nat :=
  match order with
  | [] => O
  | b :: order' => if bit =? b then O else S (position bit order')
  end.

(** Rank of a flag in [PRINT_ORDER]: 0 for mute, 7 for chan4. *)
Definition priority (bit : Z) : nat := position bit PRINT_ORDER.

Definition before (b1 b2 : Z) : Prop := (priority b1 < priority b2)%nat.

(** The entry that [decode_edges] appends for one flag. *)
Definition edge_entry (p c bit : Z) : list (string * Z * string) :=
  if Py.truthy_int (Z.land (Z.lxor p c) bit) then
    match bit_name BIT_NAMES bit with
    | Some base => [((base ++ "_" ++ edge_of c bit)%string, bit, edge_of c bit)]
    | None => []
    end
  else [].

(** The entry that [decode_edges0] appends for one item of [BIT_NAMES]. *)
Definition edge_entry0 (p c : Z) (item : Z * string) : list (string * string) :=
  if Py.truthy_int (Z.land (Z.lxor p c) (fst item)) then
    [((snd item ++ "_" ++ edge_of c (fst item))%string, edge_of c (fst item))]
  else [].

(** An entry of [decode_edges] without its bit. *)
Definition transition (e : string * Z * string) : string * string :=
  (edge_name e, edge_dir e).

(** The names that [active_set] appends for one flag. *)
Definition active_entry (mask bit : Z) : list string :=
  if Py.truthy_int (Z.land mask bit) then
    match bit_name BIT_NAMES bit with
    | Some n => [n]
    | None => []
    end
  else [].

(** Key code of a name of the table (0 for a name that is not in it). *)
Definition keycode (KEYCODES : string -> option Z) (k : string) : Z :=
  match KEYCODES k with
  | Some code => code
  | None => 0
  end.

Definition known_key (KEYCODES : string -> option Z) (k : string) : Prop :=
  KEYCODES k <> None.

Definition press (KEYCODES : string -> option Z) (k : string) : event :=
  UiWrite (keycode KEYCODES k) 1.

Definition unpress (KEYCODES : string -> option Z) (k : string) : event :=
  UiWrite (keycode KEYCODES k) 0.

(** [m] can only fail with an exception accepted by [allowed]. *)
Definition raises {A} (allowed : exn -> bool) (m : Py.M A) : Prop :=
  forall e, Py.result m = inl e -> allowed e = true.

(** The exceptions of a failed lookup or of a value of the wrong type. *)
Definition lookup_error (e : exn) : bool :=
  match e with
  | KeyError _ | TypeError | AttributeError => true
  | _ => false
  end.

(** What the dispatch of an action can raise: a failed lookup, a value of
    the wrong type, a command with a NUL character, a launch that fails. *)
Definition dispatch_error (e : exn) : bool :=
  match e with
  | KeyError _ | TypeError | AttributeError | ValueError _ | OSError
  | BlockingIOError => true
  | _ => false
  end.

(** What can leave the body of [while True]. *)
Definition loop_error (e : exn) : bool :=
  match e with
  | KeyError _ | TypeError | AttributeError | ValueError _ | OSError
  | KeyboardInterrupt => true
  | _ => false
  end.

(** What can leave one pass before the handler of the inner [try]. *)
Definition body_error (e : exn) : bool :=
  loop_error e || is_BlockingIOError e.

(** Whether a loaded document is a mapping with a 'bindings' entry. *)
Definition has_bindings (data : yaml) : bool :=
  match data with
  | YMap m =>
      match Py.dict_get m "bindings" with
      | Some _ => true
      | None => false
      end
  | _ => false
  end.

Definition is_OsRead (ev : event) : bool :=
  match ev with OsRead _ => true | _ => false end.

Definition is_release (ev : event) : bool :=
  match ev with UiClose | FdClose => true | _ => false end.

(** A key combination that names a key outside every key table (the
    names of the table all start with KEY_). *)
Definition bad_combo : yaml :=
  YMap [("type", YStr "key"); ("keys", YSeq [YStr "NOT_A_KEY"])].

Definition bad_combo_bindings : yaml := YMap [("mute_on", bad_combo)].

(** The action that launches the command [true]. *)
Definition true_command : yaml :=
  YMap [("type", YStr "shell"); ("cmd", YStr "true")].

(** The same sinks for every edge of a pass, and for every pass. *)
Definition everywhere (sk : sinks) : string -> sinks := fun _ => sk.

Definition always (sk : sinks) : nat -> string -> sinks := fun _ _ => sk.

(** Sinks in which the launch fails with [f] and the delivery succeeds. *)
Definition failing_launch (f : launch_failure) : sinks :=
  {| have_requests := true;
     post_error := None;
     launch_error := Some f |}.

(** Sinks in which the delivery to Node-RED raises, with [requests]
    imported or not. *)
Definition failing_post (requests : bool) : sinks :=
  {| have_requests := requests;
     post_error := Some "connection refused"%string;
     launch_error := None |}.

(** A world in which the hidraw node cannot be opened. *)
Definition world_without_device (f : map_file) : world :=
  {| discover := None; uinput_ok := true; node_ok := fun _ => false;
     gvmap := f; outside := fun _ _ => quiet_sinks |}.

(** Every exception but [SystemExit]. *)
Definition not_exit (e : exn) : bool :=
  match e with SystemExit _ => false | _ => true end.

Definition missing_bindings : exn :=
  ValueError "Top-level 'bindings' missing in mapping file.".

(** ** Vocabulary of the further properties *)

Definition flip_dir (dir : string) : string :=
  if String.eqb dir "on" then "off" else "on".

(** The payload that [emit_to_nodered] builds for an edge. *)
Definition payload_of (curr : Z) (e : string * Z * string) : payload :=
  {| pl_event := edge_name e;
     pl_edge := edge_dir e;
     pl_mask_hex := Py.format_02x curr;
     pl_mask_int := curr;
     pl_active := flat_map (active_entry curr) PRINT_ORDER |}.

(** The notification that [emit_to_nodered] posts for an edge. *)
Definition note_of (curr : Z) (e : string * Z * string) : event :=
  Post (payload_of curr e).

(** The line that [emit_to_nodered] prints when the delivery raises. *)
Definition post_warning (sk : sinks) : list event :=
  match post_error sk with
  | None => []
  | Some msg =>
      [Print ((if have_requests sk then "[GV] WARN: Node-RED POST failed: "
               else "[GV] WARN: curl POST failed: ") ++ msg)%string]
  end.

(** Everything [emit_to_nodered] does for an edge: the notification and,
    when its delivery fails, the warning. *)
Definition notification (sk : string -> sinks) (curr : Z)
    (e : string * Z * string) : list event :=
  note_of curr e :: post_warning (sk (edge_name e)).

(** The text of [fmt_mask], which never fails. *)
Definition state_of (mask : Z) : string :=
  match fmt_mask mask with
  | (_, inr state) => state
  | (_, inl _) => ""
  end.

(** The log line of an edge. *)
Definition edge_line (curr : Z) (e : string * Z * string) : event :=
  Print ("[GV] " ++ Py.ljust 12 (edge_name e)
           ++ "  . state " ++ state_of curr)%string.

(** The payloads posted for the event [name] in a trace. *)
Definition posted (name : string) (tr : list event) : list payload :=
  flat_map (fun ev =>
              match ev with
              | Post p => if String.eqb (pl_event p) name then [p] else []
              | _ => []
              end) tr.



(** The loop of a cycle, [for ev_name, bit, edge in ...], over the edges
    [es]. *)
Definition handle_edges (KEYCODES : string -> option Z)
    (sk : string -> sinks) (bindings : yaml) (curr : Z)
    (es : list (string * Z * string)) : Py.M unit :=
  Py.forM_ es (handle_edge KEYCODES sk bindings curr).


(** Key injection and command launch. *)
Definition action_event (ev : event) : bool :=
  match ev with UiWrite _ _ | UiSyn | Popen _ => true | _ => false end.



Definition idle_event (ev : event) : bool :=
  match ev with OsRead _ | Sleep => true | _ => false end.

(** [m] only performs actions accepted by [ok]. *)
Definition emits {A} (ok : event -> bool) (m : Py.M A) : Prop :=
  forallb ok (Py.trace m) = true.

(** A pass that brings nothing new: no data, or the stored byte again. *)
Definition idle_tick (prev : option Z) (t : tick) : bool :=
  match t with
  | Tick REmpty | Tick RBlocking => true
  | Tick (RData b) =>
      match prev with
      | Some p => byte_value b =? p
      | None => false
      end
  | _ => false
  end.


(** ** Device discovery *)

(** Text is the string of its code points, all below 256 (the attribute
    files of sysfs are ASCII). *)
Module Text.

(** [str.lower] on one character: A-Z, and the capital letters of the
    Latin-1 range. *)
Definition lower_char (c : ascii) : ascii :=
  let n := nat_of_ascii c in
  if ((65 <=? n) && (n <=? 90))%nat then ascii_of_nat (n + 32)
  else if ((192 <=? n) && (n <=? 222) && negb (n =? 215))%nat
       then ascii_of_nat (n + 32)
       else c.

Fixpoint lower (s : string) : string :=
  match s with
  | EmptyString => EmptyString
  | String c s' => String (lower_char c) (lower s')
  end.

Fixpoint drop (n : nat) (s : string) : string :=
  match n, s with
  | S n', String _ s' => drop n' s'
  | _, _ => s
  end.

(** [s[-n:]] for a positive [n]. *)
Definition last_chars (n : nat) (s : string) : string :=
  drop (String.length s - n) s.

(** [s.split(sep)] for a separator of one character. *)
Fixpoint split (sep : ascii) (s : string) : list string :=
  match s with
  | EmptyString => [EmptyString]
  | String c s' =>
      if Ascii.eqb c sep then EmptyString :: split sep s'
      else match split sep s' with
           | w :: ws => String c w :: ws
           | [] => [String c EmptyString]
           end
  end.

(** [l[-k]] for a positive [k]. *)
Definition from_end {A} (k : nat) (l : list A) : option A :=
  nth_error (rev l) (k - 1).

Fixpoint insert_sorted (u : string) (l : list string) : list string :=
  match l with
  | [] => [u]
  | v :: l' => if String.leb u v then u :: l else v :: insert_sorted u l'
  end.

(** [sorted(l)] for a list of strings: the order of the code points. *)
Fixpoint sorted (l : list string) : list string :=
  match l with
  | [] => []
  | u :: l' => insert_sorted u (sorted l')
  end.

Fixpoint strip_prefix (t s : string) : option string :=
  match t, s with
  | EmptyString, _ => Some s
  | String a t', String b s' => if Ascii.eqb a b then strip_prefix t' s' else None
  | String _ _, EmptyString => None
  end.

End Text.

(** The fragment of regular expressions that the pattern of
    [find_hidraw_by_vidpid] uses, matched as [re] does: from left to
    right, every repetition greedy, backtracking to shorter repetitions
    when the rest fails. *)
Module Re.

Inductive atom : Type :=
| Lit (t : string)
| Many (lo : nat) (hi : option nat) (class : ascii -> bool) (group : bool).

Definition below (hi : option nat) (n : nat) : bool :=
  match hi with
  | Some h => (n <? h)%nat
  | None => true
  end.

(** A greedy repetition of a character class: [taken] (of length [n]) has
    been consumed; one more character is tried first, and the
    continuation [k] only when that fails. *)
Fixpoint greedy {R} (class : ascii -> bool) (lo : nat) (hi : option nat)
    (taken : string) (n : nat) (s : string)
    (k : string -> string -> option R) : option R :=
  let stop := if (lo <=? n)%nat then k taken s else None in
  match s with
  | String c s' =>
      if class c && below hi n then
        match greedy class lo hi (taken ++ String c EmptyString)%string
                (S n) s' k with
        | Some r => Some r
        | None => stop
        end
      else stop
  | EmptyString => stop
  end.

(** [re.match]: the groups of the first way in which the atoms match a
    prefix of [s]. *)
Fixpoint match_here (r : list atom) (s : string) (groups : list string)
  : option (list string) :=
  match r with
  | [] => Some groups
  | Lit t :: r' =>
      match Text.strip_prefix t s with
      | Some s' => match_here r' s' groups
      | None => None
      end
  | Many lo hi class group :: r' =>
      greedy class lo hi EmptyString O s
        (fun taken rest =>
           match_here r' rest (if group then groups ++ [taken] else groups))
  end.

(** [re.search]: the leftmost position at which the atoms match. *)
Fixpoint search (r : list atom) (s : string) : option (list string) :=
  match match_here r s [] with
  | Some groups => Some groups
  | None =>
      match s with
      | EmptyString => None
      | String _ s' => search r s'
      end
  end.

(** [\s] on the code points below 256. *)
Definition is_space (c : ascii) : bool :=
  let n := nat_of_ascii c in
  (((9 <=? n) && (n <=? 13)) || ((28 <=? n) && (n <=? 32))
   || (n =? 133) || (n =? 160))%nat.

Definition non_space (c : ascii) : bool := negb (is_space c).

(** [[0-9A-Fa-f]]. *)
Definition is_hex (c : ascii) : bool :=
  let n := nat_of_ascii c in
  (((48 <=? n) && (n <=? 57)) || ((65 <=? n) && (n <=? 70))
   || ((97 <=? n) && (n <=? 102)))%nat.

End Re.

(** [HID_ID=\S+:([0-9A-Fa-f]{4,8}):([0-9A-Fa-f]{4,8})]. *)
Definition HID_ID_pattern : list Re.atom :=
  [ Re.Lit "HID_ID=";
    Re.Many 1 None Re.non_space false;
    Re.Lit ":";
    Re.Many 4 (Some 8%nat) Re.is_hex true;
    Re.Lit ":";
    Re.Many 4 (Some 8%nat) Re.is_hex true ].

(** What sysfs holds: the paths that the two glob patterns return, and for
    a path either the text of the file or the message of the exception
    raised when it is opened or read. *)
Record sysfs : Type := mkSysfs {
  glob_device : list string;
  glob_plain : list string;
  read_uevent : string -> string + string
}.

(** The lines that the verbose scan prints, by their content. *)
Inductive probe_line : Type :=
| WarnUnreadable (u msg : string)
| ProbeLine (node raw_vid raw_pid : string)
| MatchLine (node raw_vid raw_pid : string)
| NoMatchLine (vid_hex pid_hex : string)
    (found : list (string * string * string)).

Inductive scan_error : Type := IndexError.

Definition say (verbose : bool) (line : probe_line) : list probe_line :=
  if verbose then [line] else [].

(** The [for] loop of [find_hidraw_by_vidpid] and what follows it. *)
Fixpoint scan (fs : sysfs) (vid_hex pid_hex : string) (verbose : bool)
    (us : list string) (found : list (string * string * string))
  : list probe_line * (scan_error + option string) :=
  match us with
  | [] => (say verbose (NoMatchLine vid_hex pid_hex found), inr None)
  | u :: us' =>
      match read_uevent fs u with
      | inl msg =>
          let '(log, r) := scan fs vid_hex pid_hex verbose us' found in
          (say verbose (WarnUnreadable u msg) ++ log, r)
      | inr txt =>
          match Re.search HID_ID_pattern txt with
          | Some [g1; g2] =>
              let raw_vid := Text.lower g1 in
              let raw_pid := Text.lower g2 in
              let tail_vid := Text.last_chars 4 raw_vid in
              let tail_pid := Text.last_chars 4 raw_pid in
              match Text.from_end 3 (Text.split "/" u) with
              | None => ([], inl IndexError)
              | Some name =>
                  let node := ("/dev/" ++ name)%string in
                  let found' := found ++ [(node, raw_vid, raw_pid)] in
                  if String.eqb tail_vid vid_hex && String.eqb tail_pid pid_hex
                  then (say verbose (ProbeLine node raw_vid raw_pid)
                          ++ say verbose (MatchLine node raw_vid raw_pid),
                        inr (Some node))
                  else
                    let '(log, r) :=
                      scan fs vid_hex pid_hex verbose us' found' in
                    (say verbose (ProbeLine node raw_vid raw_pid) ++ log, r)
              end
          | _ => scan fs vid_hex pid_hex verbose us' found
          end
      end
  end.

Definition find_hidraw_by_vidpid (fs : sysfs) (vid_hex pid_hex : string)
    (verbose : bool) : list probe_line * (scan_error + option string) :=
  let vid_hex := Text.lower vid_hex in
  let pid_hex := Text.lower pid_hex in
  let candidates := glob_device fs ++ glob_plain fs in
  scan fs vid_hex pid_hex verbose (Text.sorted candidates) [].

(** ** Vocabulary of the discovery properties *)

Fixpoint all_chars (class : ascii -> bool) (s : string) : bool :=
  match s with
  | EmptyString => true
  | String c s' => class c && all_chars class s'
  end.

(** A string at which a repetition of [class] cannot go on. *)
Definition stops (class : ascii -> bool) (s : string) : bool :=
  match s with
  | EmptyString => true
  | String c _ => negb (class c)
  end.

(** Between four and eight hexadecimal digits. *)
Definition hex_id (g : string) : bool :=
  all_chars Re.is_hex g
  && (4 <=? String.length g)%nat && (String.length g <=? 8)%nat.

(** The lower-cased identifiers that the scan reads from a candidate, if
    it can be read and holds a HID_ID. *)
Definition ids_of (fs : sysfs) (u : string) : option (string * string) :=
  match read_uevent fs u with
  | inr txt =>
      match Re.search HID_ID_pattern txt with
      | Some [g1; g2] => Some (Text.lower g1, Text.lower g2)
      | _ => None
      end
  | inl _ => None
  end.

(** The device node that the scan derives from the path of a candidate. *)
Definition node_of (u : string) : option string :=
  match Text.from_end 3 (Text.split "/" u) with
  | Some name => Some ("/dev/" ++ name)%string
  | None => None
  end.

(** Whether a candidate carries the wanted identifiers. *)
Definition matching (fs : sysfs) (vid_hex pid_hex : string) (u : string)
  : bool :=
  match ids_of fs u with
  | Some (raw_vid, raw_pid) =>
      String.eqb (Text.last_chars 4 raw_vid) (Text.lower vid_hex)
      && String.eqb (Text.last_chars 4 raw_pid) (Text.lower pid_hex)
  | None => false
  end.

(** A candidate that the scan passes without stopping: it does not match,
    and its path has the three components that the node is taken from
    whenever a HID_ID is found. *)
Definition passed (fs : sysfs) (vid_hex pid_hex : string) (u : string)
  : Prop :=
  matching fs vid_hex pid_hex u = false
  /\ (ids_of fs u <> None -> node_of u <> None).

(** A string that does not begin with a colon. *)
Definition no_colon_start (s : string) : bool :=
  match s with
  | EmptyString => true
  | String c _ => negb (Ascii.eqb c ":")
  end.

Definition not_H (c : ascii) : bool := negb (Ascii.eqb c "H").

Definition not_slash (c : ascii) : bool := negb (Ascii.eqb c "/").

(** The two kinds of path that the glob patterns return for a device
    directory. *)
Definition device_uevent (name : string) : string :=
  ("/sys/class/hidraw/" ++ name ++ "/device/uevent")%string.

Definition plain_uevent (name : string) : string :=
  ("/sys/class/hidraw/" ++ name ++ "/uevent")%string.

(** A sysfs with one hidraw device, seen through one of the two glob
    patterns, whose uevent file (wherever it is read) names the Game
    Voice. *)
Definition game_voice_uevent : string :=
  ("DRIVER=hid-generic" ++ String "010" "HID_ID=0003:0000045E:0000003B"
     ++ String "010" "HID_NAME=Microsoft SideWinder Game Voice"
     ++ String "010" EmptyString)%string.

Definition sysfs_with_device_path : sysfs :=
  {| glob_device := [device_uevent "hidraw3"];
     glob_plain := [];
     read_uevent := fun _ => inr game_voice_uevent |}.

Definition sysfs_with_plain_path : sysfs :=
  {| glob_device := [];
     glob_plain := [plain_uevent "hidraw3"];
     read_uevent := fun _ => inr game_voice_uevent |}.

(** * Properties *)

(** ** Bits *)

Lemma land_pow2_truthy (x i : Z) :
  0 <= i -> Py.truthy_int (Z.land x (2 ^ i)) = Z.testbit x i.
Proof.
  intros Hi. unfold Py.truthy_int.
  destruct (Z.testbit x i) eqn:Hb.
  - assert (H : Z.testbit (Z.land x (2 ^ i)) i = true).
    { rewrite Z.land_spec, Hb, Z.pow2_bits_true by lia. reflexivity. }
    destruct (Z.eqb_spec (Z.land x (2 ^ i)) 0) as [E|E]; [|reflexivity].
    rewrite E, Z.bits_0 in H. discriminate.
  - assert (E : Z.land x (2 ^ i) = 0).
    { apply Z.bits_inj'. intros n Hn.
      rewrite Z.land_spec, Z.bits_0, Z.pow2_bits_eqb by lia.
      destruct (Z.eqb_spec i n) as [->|_].
      - rewrite Hb. reflexivity.
      - apply andb_false_r. }
    rewrite E. reflexivity.
Qed.

Lemma PRINT_ORDER_pow2 (bit : Z) :
  In bit PRINT_ORDER -> bit = 2 ^ Z.log2 bit /\ 0 <= Z.log2 bit.
Proof.
  unfold PRINT_ORDER. cbn [In].
  intros H. repeat (destruct H as [<-|H]; [split; [reflexivity|discriminate]|]).
  destruct H.
Qed.

Lemma truthy_flag (x bit : Z) :
  In bit PRINT_ORDER ->
  Py.truthy_int (Z.land x bit) = Z.testbit x (Z.log2 bit).
Proof.
  intros H. destruct (PRINT_ORDER_pow2 bit H) as [E Hi].
  rewrite E at 1. apply land_pow2_truthy, Hi.
Qed.

Lemma changed_flag (p c bit : Z) :
  In bit PRINT_ORDER ->
  Py.truthy_int (Z.land (Z.lxor p c) bit) = differs p c bit.
Proof.
  intros H. rewrite truthy_flag by exact H.
  unfold differs. apply Z.lxor_spec.
Qed.

Lemma PRINT_ORDER_named (bit : Z) :
  In bit PRINT_ORDER -> exists base, bit_name BIT_NAMES bit = Some base.
Proof.
  unfold PRINT_ORDER. cbn [In].
  intros H. repeat (destruct H as [<-|H]; [eexists; reflexivity|]).
  destruct H.
Qed.

(** ** The loops of [decode_edges] and [active_set] *)

Lemma decode_loop (p c : Z) (order : list Z) :
  (forall bit, In bit order -> exists base, bit_name BIT_NAMES bit = Some base) ->
  forall acc,
    Py.foldM
      (fun events bit =>
         if Py.truthy_int (Z.land (Z.lxor p c) bit) then
           base <- BIT_NAMES_getitem bit ;;
           let edge := edge_of c bit in
           Py.ret (events ++ [((base ++ "_" ++ edge)%string, bit, edge)])
         else Py.ret events)
      order acc
    = Py.ret (acc ++ flat_map (edge_entry p c) order).
Proof.
  induction order as [|bit order IH]; intros Hnamed acc.
  - cbn. rewrite app_nil_r. reflexivity.
  - cbn [Py.foldM flat_map].
    destruct (Hnamed bit (or_introl eq_refl)) as [base Hbase].
    assert (IH' := IH (fun b Hb => Hnamed b (or_intror Hb))).
    unfold edge_entry at 1, BIT_NAMES_getitem. rewrite Hbase.
    destruct (Py.truthy_int (Z.land (Z.lxor p c) bit)); cbn.
    + rewrite IH'. cbn. rewrite <- app_assoc. reflexivity.
    + rewrite IH'. reflexivity.
Qed.

Lemma decode_edges_flat_map (p c : Z) :
  decode_edges p c = Py.ret (flat_map (edge_entry p c) PRINT_ORDER).
Proof.
  unfold decode_edges. rewrite decode_loop by exact PRINT_ORDER_named.
  reflexivity.
Qed.

Lemma edge_bits_filter (p c : Z) (order : list Z) :
  (forall bit, In bit order -> In bit PRINT_ORDER) ->
  map edge_bit (flat_map (edge_entry p c) order) = filter (differs p c) order.
Proof.
  induction order as [|bit order IH]; intros Hsub; [reflexivity|].
  cbn [flat_map filter]. rewrite map_app, IH by (intros; apply Hsub; now right).
  unfold edge_entry.
  rewrite changed_flag by (apply Hsub; now left).
  destruct (PRINT_ORDER_named bit (Hsub bit (or_introl eq_refl))) as [base ->].
  destruct (differs p c bit); reflexivity.
Qed.

Lemma StronglySorted_filter {A} (R : A -> A -> Prop) (f : A -> bool) l :
  StronglySorted R l -> StronglySorted R (filter f l).
Proof.
  induction 1 as [|a l Hs IH Hall]; cbn; [constructor|].
  destruct (f a); [|exact IH].
  constructor; [exact IH|].
  rewrite Forall_forall in *. intros x Hx.
  apply filter_In in Hx. apply Hall, Hx.
Qed.

Lemma PRINT_ORDER_sorted : StronglySorted before PRINT_ORDER.
Proof.
  unfold PRINT_ORDER.
  repeat (constructor; [|repeat constructor; unfold before; cbn; lia]).
  constructor.
Qed.

Lemma PRINT_ORDER_NoDup : NoDup PRINT_ORDER.
Proof.
  unfold PRINT_ORDER.
  repeat (constructor; [cbn; intros H; repeat (destruct H as [H|H]; [discriminate H|]); exact H|]).
  constructor.
Qed.

Lemma edge_entry_shape (p c bit : Z) (e : string * Z * string) :
  In bit PRINT_ORDER ->
  In e (edge_entry p c bit) ->
  edge_bit e = bit
  /\ edge_dir e = (if Z.testbit c (Z.log2 bit) then "on" else "off")
  /\ exists base, bit_name BIT_NAMES bit = Some base
                  /\ edge_name e = (base ++ "_" ++ edge_dir e)%string.
Proof.
  intros Hbit. unfold edge_entry.
  destruct (PRINT_ORDER_named bit Hbit) as [base Hbase]. rewrite Hbase.
  destruct (Py.truthy_int (Z.land (Z.lxor p c) bit)); [|intros []].
  intros [<-|[]]. cbn.
  unfold edge_of. rewrite truthy_flag by exact Hbit.
  repeat split. exists base. split; reflexivity.
Qed.

(** ** Edge detection *)

(** C1: [decode_edges p c] never fails and returns, for the eight flags,
    exactly one entry per flag whose bit differs between [p] and [c] and
    nothing else; the direction of an entry is "on" exactly when the bit is
    set in [c], its name is the flag's name joined to the direction; the
    entries come in [PRINT_ORDER] (mute, command, all, team, chan1..chan4),
    so that from 0x00 to 0x81 the result is mute_on and then all_on; and
    [decode_edges c c] is empty. *)
Theorem decode_edges_one_edge_per_changed_flag (p c : Z) :
  exists edges,
    decode_edges p c = ([], inr edges)
    /\ NoDup (map edge_bit edges)
    /\ (forall bit, In bit (map edge_bit edges) <->
                    In bit PRINT_ORDER
                    /\ Z.testbit p (Z.log2 bit) <> Z.testbit c (Z.log2 bit))
    /\ Forall (fun e =>
                 edge_dir e
                 = (if Z.testbit c (Z.log2 (edge_bit e)) then "on" else "off")
                 /\ exists base,
                     bit_name BIT_NAMES (edge_bit e) = Some base
                     /\ edge_name e = (base ++ "_" ++ edge_dir e)%string)
              edges
    /\ StronglySorted before (map edge_bit edges)
    /\ decode_edges c c = ([], inr [])
    /\ decode_edges 0x00 0x81
       = ([], inr [("mute_on", BIT_MUTE, "on"); ("all_on", BIT_ALL, "on")]).
Proof.
  exists (flat_map (edge_entry p c) PRINT_ORDER).
  assert (Hbits : map edge_bit (flat_map (edge_entry p c) PRINT_ORDER)
                  = filter (differs p c) PRINT_ORDER)
    by (apply edge_bits_filter; auto).
  split; [apply decode_edges_flat_map|].
  rewrite Hbits.
  split; [apply NoDup_filter, PRINT_ORDER_NoDup|].
  split.
  { intros bit. rewrite filter_In. unfold differs.
    destruct (Z.testbit p (Z.log2 bit)), (Z.testbit c (Z.log2 bit)); cbn;
      intuition congruence. }
  split.
  { rewrite Forall_forall. intros e He.
    apply in_flat_map in He. destruct He as [bit [Hbit He]].
    destruct (edge_entry_shape p c bit e Hbit He) as [Eb [Ed [base [Hb Hn]]]].
    rewrite Eb. split; [exact Ed|]. exists base. split; assumption. }
  split; [apply StronglySorted_filter, PRINT_ORDER_sorted|].
  split; [|reflexivity].
  rewrite decode_edges_flat_map. unfold Py.ret. do 2 f_equal.
  assert (Hnil : forall order, flat_map (edge_entry c c) order = []).
  { induction order as [|bit order IH]; [reflexivity|].
    cbn. rewrite IH, app_nil_r. unfold edge_entry.
    rewrite Z.lxor_nilpotent. reflexivity. }
  apply Hnil.
Qed.

(** ** The two decoders *)

Lemma decode0_loop (p c : Z) (names : list (Z * string)) :
  forall acc,
    Py.foldM
      (fun events (item : Z * string) =>
         let '(bit, base) := item in
         if Py.truthy_int (Z.land (Z.lxor p c) bit) then
           let edge := edge_of c bit in
           Py.ret (events ++ [((base ++ "_" ++ edge)%string, edge)])
         else Py.ret events)
      names acc
    = Py.ret (acc ++ flat_map (edge_entry0 p c) names).
Proof.
  induction names as [|[bit base] names IH]; intros acc.
  - cbn. rewrite app_nil_r. reflexivity.
  - cbn [Py.foldM flat_map]. unfold edge_entry0 at 1. cbn [fst snd].
    destruct (Py.truthy_int (Z.land (Z.lxor p c) bit)); cbn.
    + rewrite IH. cbn. rewrite <- app_assoc. reflexivity.
    + rewrite IH. reflexivity.
Qed.

Lemma BIT_NAMES_lookup (bit : Z) (base : string) :
  In (bit, base) BIT_NAMES -> bit_name BIT_NAMES bit = Some base.
Proof.
  unfold BIT_NAMES. cbn [In].
  intros H.
  repeat (destruct H as [H|H]; [injection H as <- <-; reflexivity|]).
  destruct H.
Qed.

Lemma entries_by_name (p c : Z) (names : list (Z * string)) :
  (forall bit base, In (bit, base) names -> bit_name BIT_NAMES bit = Some base) ->
  flat_map (edge_entry0 p c) names
  = flat_map (fun bit => map transition (edge_entry p c bit)) (map fst names).
Proof.
  induction names as [|[bit base] names IH]; intros Hn; [reflexivity|].
  cbn [flat_map map fst]. rewrite IH by (intros; apply Hn; now right).
  f_equal. unfold edge_entry0, edge_entry. cbn [fst snd].
  rewrite (Hn bit base (or_introl eq_refl)).
  destruct (Py.truthy_int (Z.land (Z.lxor p c) bit)); reflexivity.
Qed.

Lemma map_flat_map {A B C} (g : B -> C) (f : A -> list B) (l : list A) :
  map g (flat_map f l) = flat_map (fun a => map g (f a)) l.
Proof.
  induction l as [|a l IH]; [reflexivity|].
  cbn. rewrite map_app, IH. reflexivity.
Qed.

Lemma BIT_NAMES_keys_PRINT_ORDER :
  Permutation PRINT_ORDER (map fst BIT_NAMES).
Proof.
  apply NoDup_Permutation.
  - apply PRINT_ORDER_NoDup.
  - unfold BIT_NAMES. cbn [map fst].
    repeat (constructor; [cbn; intros H; repeat (destruct H as [H|H]; [discriminate H|]); exact H|]).
    constructor.
  - intros bit. unfold PRINT_ORDER, BIT_NAMES. cbn [map fst In]. tauto.
Qed.

(** C9: [decode_edges] and [decode_edges0] report the same transitions.
    For all masks, the (event name, direction) pairs of [decode_edges] are
    a permutation of the entries of [decode_edges0] that precede its final
    aggregate ("mask_xx", "state") entry; the two differ only in order, in
    the bit carried by the triples of [decode_edges], and in that final
    entry (and in the empty line that [decode_edges0] prints). *)
Theorem decode_edges0_same_transitions (p c : Z) :
  exists edges edges0,
    decode_edges p c = ([], inr edges)
    /\ decode_edges0 p c
       = ([Print ""],
          inr (edges0 ++ [(("mask_" ++ Py.format_02x c)%string, "state")]))
    /\ Permutation (map transition edges) edges0.
Proof.
  exists (flat_map (edge_entry p c) PRINT_ORDER),
         (flat_map (edge_entry0 p c) BIT_NAMES).
  split; [apply decode_edges_flat_map|].
  split.
  - unfold decode_edges0. rewrite decode0_loop. reflexivity.
  - rewrite map_flat_map, entries_by_name by exact BIT_NAMES_lookup.
    apply Permutation_flat_map, BIT_NAMES_keys_PRINT_ORDER.
Qed.

(** ** The monad *)

Lemma bind_value {A B} (tr : list event) (a : A) (k : A -> Py.M B) :
  Py.bind (tr, inr a) k = (tr ++ Py.trace (k a), Py.result (k a)).
Proof. cbn. destruct (k a). reflexivity. Qed.

Lemma bind_ret_l {A B} (a : A) (k : A -> Py.M B) :
  Py.bind (Py.ret a) k = k a.
Proof. cbn. destruct (k a). reflexivity. Qed.

Lemma bind_ret_r {A} (m : Py.M A) : Py.bind m Py.ret = m.
Proof.
  destruct m as [tr [e|a]]; cbn; [reflexivity|].
  rewrite app_nil_r. reflexivity.
Qed.

Lemma bind_assoc {A B C} (m : Py.M A) (f : A -> Py.M B) (g : B -> Py.M C) :
  Py.bind (Py.bind m f) g = Py.bind m (fun a => Py.bind (f a) g).
Proof.
  destruct m as [tr [e|a]]; cbn; [reflexivity|].
  destruct (f a) as [tr' [e'|b]]; cbn; [reflexivity|].
  destruct (g b) as [tr'' r]. rewrite app_assoc. reflexivity.
Qed.

(** ** Formatting the mask *)

Lemma active_loop (mask : Z) (order : list Z) :
  (forall bit, In bit order -> exists base, bit_name BIT_NAMES bit = Some base) ->
  forall acc,
    Py.foldM
      (fun names bit =>
         if Py.truthy_int (Z.land mask bit) then
           n <- BIT_NAMES_getitem bit ;;
           Py.ret (names ++ [n])
         else Py.ret names)
      order acc
    = Py.ret (acc ++ flat_map (active_entry mask) order).
Proof.
  induction order as [|bit order IH]; intros Hnamed acc.
  - cbn. rewrite app_nil_r. reflexivity.
  - cbn [Py.foldM flat_map].
    destruct (Hnamed bit (or_introl eq_refl)) as [base Hbase].
    assert (IH' := IH (fun b Hb => Hnamed b (or_intror Hb))).
    unfold active_entry at 1, BIT_NAMES_getitem. rewrite Hbase.
    destruct (Py.truthy_int (Z.land mask bit)); cbn.
    + rewrite IH'. cbn. rewrite <- app_assoc. reflexivity.
    + rewrite IH'. reflexivity.
Qed.

Lemma active_set_total (mask : Z) :
  active_set mask = Py.ret (flat_map (active_entry mask) PRINT_ORDER).
Proof.
  unfold active_set. rewrite active_loop by exact PRINT_ORDER_named.
  reflexivity.
Qed.

Lemma fmt_mask_total (mask : Z) :
  exists state, fmt_mask mask = ([], inr state).
Proof.
  unfold fmt_mask. rewrite active_set_total.
  generalize (flat_map (active_entry mask) PRINT_ORDER). intros names.
  destruct names; eexists; reflexivity.
Qed.

Lemma emit_to_nodered_posts (sk : string -> sinks)
    (event_name edge : string) (bit mask : Z) :
  emit_to_nodered (sk event_name) event_name edge mask
  = (notification sk mask (event_name, bit, edge), inr tt).
Proof.
  unfold emit_to_nodered, notification, note_of, post_warning, payload_of.
  cbn [NR_ENABLED negb edge_name edge_dir fst snd].
  rewrite active_set_total, bind_ret_l.
  unfold Py.emit. rewrite bind_value.
  destruct (post_error (sk event_name)) as [msg|]; [|reflexivity].
  destruct (have_requests (sk event_name)); reflexivity.
Qed.

(** ** The first read *)

(** C2: while no previous state is stored, a byte that is read is only
    logged as the initial state and stored: the pass performs the read and
    one INIT line, posts no notification, injects no key, launches no
    command, and the loop goes on with the byte as previous state.  Reads
    that deliver nothing leave the previous state absent. *)
Theorem first_read_is_baseline_only
    (KEYCODES : string -> option Z) (sks : nat -> string -> sinks) (bindings : yaml)
    (b : Byte.byte) (ticks : list tick) :
  exists state,
    fmt_mask (byte_value b) = ([], inr state)
    /\ iteration KEYCODES (sks O) bindings None (RData b)
       = ([OsRead (RData b); Print ("[GV] INIT state = " ++ state)%string],
          inr (Some (byte_value b)))
    /\ poll_loop KEYCODES sks bindings None (Tick (RData b) :: ticks)
       = (OsRead (RData b) :: Print ("[GV] INIT state = " ++ state)%string
            :: Py.trace (poll_loop KEYCODES (fun n => sks (S n)) bindings
                           (Some (byte_value b)) ticks),
          Py.result (poll_loop KEYCODES (fun n => sks (S n)) bindings
                       (Some (byte_value b)) ticks))
    /\ iteration KEYCODES (sks O) bindings None REmpty
       = ([OsRead REmpty], inr None)
    /\ iteration KEYCODES (sks O) bindings None RBlocking
       = ([OsRead RBlocking; Sleep], inr None).
Proof.
  destruct (fmt_mask_total (byte_value b)) as [state Hstate].
  assert (Hpass : iteration KEYCODES (sks O) bindings None (RData b)
                  = ([OsRead (RData b);
                      Print ("[GV] INIT state = " ++ state)%string],
                     inr (Some (byte_value b)))).
  { unfold iteration, try_body. rewrite Hstate. reflexivity. }
  exists state. split; [exact Hstate|]. split; [exact Hpass|].
  split; [|split; reflexivity].
  cbn [poll_loop run_tick]. rewrite Hpass, bind_value. reflexivity.
Qed.

(** ** Edges without a binding *)

Lemma fmt_mask_state_of (curr : Z) :
  fmt_mask curr = ([], inr (state_of curr)).
Proof.
  destruct (fmt_mask_total curr) as [state Hstate].
  unfold state_of. rewrite Hstate. reflexivity.
Qed.

(** [handle_edge] logs and notifies, then looks the binding up. *)
Lemma handle_edge_split (KEYCODES : string -> option Z)
    (sk : string -> sinks) (bindings : yaml) (curr : Z)
    (e : string * Z * string) :
  handle_edge KEYCODES sk bindings curr e
  = (edge_line curr e :: notification sk curr e
       ++ Py.trace (spec <- Py.get bindings (edge_name e) YNull ;;
                    if Py.truthy spec
                    then do_action KEYCODES (sk (edge_name e)) spec
                    else Py.ret tt),
     Py.result (spec <- Py.get bindings (edge_name e) YNull ;;
                if Py.truthy spec
                then do_action KEYCODES (sk (edge_name e)) spec
                else Py.ret tt)).
Proof.
  destruct e as [[ev_name bit] edge].
  unfold handle_edge. rewrite fmt_mask_state_of.
  unfold Py.emit. rewrite !bind_value.
  rewrite (emit_to_nodered_posts sk ev_name edge bit curr), bind_value.
  reflexivity.
Qed.

Lemma handle_edge_unbound (KEYCODES : string -> option Z)
    (sk : string -> sinks) (table : list (string * yaml)) (curr : Z)
    (e : string * Z * string) :
  Py.dict_get table (edge_name e) = None ->
  handle_edge KEYCODES sk (YMap table) curr e
  = (edge_line curr e :: notification sk curr e, inr tt).
Proof.
  intros Hfree. rewrite handle_edge_split.
  cbn [Py.get]. rewrite Hfree, bind_ret_l.
  cbn [Py.truthy Py.ret Py.trace Py.result fst snd].
  rewrite app_nil_r. reflexivity.
Qed.

(** ** Key combinations *)

Section KeyCombo.

Variable KEYCODES : string -> option Z.

Lemma write_key_known (value : Z) (k : string) :
  known_key KEYCODES k ->
  write_key KEYCODES value (YStr k)
  = ([UiWrite (keycode KEYCODES k) value], inr tt).
Proof.
  unfold known_key, write_key, KEYCODES_getitem, keycode.
  destruct (KEYCODES k); [reflexivity|congruence].
Qed.

Lemma write_key_unknown (value : Z) (k : string) :
  KEYCODES k = None ->
  write_key KEYCODES value (YStr k) = ([], inl (KeyError (YStr k))).
Proof.
  intros Hk. unfold write_key, KEYCODES_getitem. rewrite Hk. reflexivity.
Qed.

Lemma write_keys_known (value : Z) (ks : list string) :
  Forall (known_key KEYCODES) ks ->
  Py.forM_ (map YStr ks) (write_key KEYCODES value)
  = (map (fun k => UiWrite (keycode KEYCODES k) value) ks, inr tt).
Proof.
  unfold Py.forM_.
  induction 1 as [|k ks Hk _ IH]; [reflexivity|].
  cbn [map Py.foldM].
  rewrite write_key_known by exact Hk.
  rewrite bind_value, IH. reflexivity.
Qed.

Lemma write_keys_unknown (value : Z) (pre : list string) (k : string)
    (rest : list string) :
  Forall (known_key KEYCODES) pre ->
  KEYCODES k = None ->
  Py.forM_ (map YStr (pre ++ k :: rest)) (write_key KEYCODES value)
  = (map (fun k => UiWrite (keycode KEYCODES k) value) pre,
     inl (KeyError (YStr k))).
Proof.
  unfold Py.forM_. intros Hpre Hk.
  induction Hpre as [|k0 pre Hk0 _ IH].
  - cbn [app map Py.foldM]. rewrite write_key_unknown by exact Hk. reflexivity.
  - cbn [app map Py.foldM].
    rewrite write_key_known by exact Hk0.
    rewrite bind_value, IH. reflexivity.
Qed.

Lemma press_combo_known (ks : list string) :
  Forall (known_key KEYCODES) ks ->
  press_combo KEYCODES (YSeq (map YStr ks))
  = (map (press KEYCODES) ks ++ map (unpress KEYCODES) (rev ks) ++ [UiSyn],
     inr tt).
Proof.
  intros Hks. unfold press_combo. cbn [Py.iter]. unfold Py.ret.
  cbv beta iota delta [Py.bind].
  rewrite write_keys_known by exact Hks.
  rewrite <- map_rev.
  rewrite write_keys_known by (apply Forall_rev; exact Hks).
  reflexivity.
Qed.

Lemma press_combo_unknown (pre : list string) (k : string)
    (rest : list string) :
  Forall (known_key KEYCODES) pre ->
  KEYCODES k = None ->
  press_combo KEYCODES (YSeq (map YStr (pre ++ k :: rest)))
  = (map (press KEYCODES) pre, inl (KeyError (YStr k))).
Proof.
  intros Hpre Hk. unfold press_combo. cbn [Py.iter]. unfold Py.ret.
  cbv beta iota delta [Py.bind].
  rewrite write_keys_unknown by assumption.
  reflexivity.
Qed.

(** C7, amended: for a KeyCombo whose keys k1..kn are all names of
    [KEYCODES], [press_combo] emits exactly: the presses of k1..kn in the
    listed order, the releases of kn..k1 in reverse order, and one
    synchronize call, in that order, and returns normally. *)
Theorem press_combo_press_release_syn (ks : list string) :
  Forall (known_key KEYCODES) ks ->
  press_combo KEYCODES (YSeq (map YStr ks))
  = (map (fun k => UiWrite (keycode KEYCODES k) 1) ks
       ++ map (fun k => UiWrite (keycode KEYCODES k) 0) (rev ks)
       ++ [UiSyn],
     inr tt).
Proof. exact (press_combo_known ks). Qed.

End KeyCombo.

Lemma sample_keys_known :
  Forall (known_key sample_KEYCODES) ["KEY_LEFTCTRL"; "KEY_LEFTSHIFT"; "KEY_M"].
Proof. repeat constructor; discriminate. Qed.

Lemma press_combo_press_release_syn_witness :
  Forall (known_key sample_KEYCODES) ["KEY_LEFTCTRL"; "KEY_LEFTSHIFT"; "KEY_M"]
  /\ press_combo sample_KEYCODES
       (YSeq [YStr "KEY_LEFTCTRL"; YStr "KEY_LEFTSHIFT"; YStr "KEY_M"])
     = ([UiWrite 29 1; UiWrite 42 1; UiWrite 50 1;
         UiWrite 50 0; UiWrite 42 0; UiWrite 29 0; UiSyn], inr tt).
Proof.
  split; [exact sample_keys_known|].
  exact (press_combo_press_release_syn sample_KEYCODES
           ["KEY_LEFTCTRL"; "KEY_LEFTSHIFT"; "KEY_M"] sample_keys_known).
Defined.

(** C7 as stated fails for a KeyCombo that lists a name outside the key
    table: the keys before it are pressed, then the lookup raises, and
    neither a release nor the synchronize call follows. *)
Lemma press_combo_unknown_key_stops_midway :
  press_combo sample_KEYCODES (YSeq [YStr "KEY_A"; YStr "NOT_A_KEY"])
  = ([UiWrite 30 1], inl (KeyError (YStr "NOT_A_KEY")))
  /\ press_combo sample_KEYCODES (YSeq [YStr "KEY_A"; YStr "NOT_A_KEY"])
     <> ([UiWrite 30 1; UiWrite (keycode sample_KEYCODES "NOT_A_KEY") 1;
          UiWrite (keycode sample_KEYCODES "NOT_A_KEY") 0; UiWrite 30 0;
          UiSyn], inr tt)
  /\ ~ In UiSyn
       (Py.trace
          (press_combo sample_KEYCODES (YSeq [YStr "KEY_A"; YStr "NOT_A_KEY"]))).
Proof.
  split; [reflexivity|]. split.
  - discriminate.
  - cbn. intros [H|[]]. discriminate H.
Qed.

(** ** Which exceptions can occur *)

Lemma raises_ret {A} (allowed : exn -> bool) (a : A) :
  raises allowed (Py.ret a).
Proof. intros e H. discriminate H. Qed.

Lemma raises_emit (allowed : exn -> bool) (ev : event) :
  raises allowed (Py.emit ev).
Proof. intros e H. discriminate H. Qed.

Lemma raises_raise {A} (allowed : exn -> bool) (e : exn) :
  allowed e = true -> raises allowed (Py.raise (A := A) e).
Proof. intros He e' H. cbn in H. congruence. Qed.

Lemma raises_bind {A B} (allowed : exn -> bool) (m : Py.M A)
    (k : A -> Py.M B) :
  raises allowed m -> (forall a, raises allowed (k a)) ->
  raises allowed (Py.bind m k).
Proof.
  intros Hm Hk e. destruct m as [tr [e0|a]]; cbn.
  - intros H. injection H as <-. apply (Hm e0). reflexivity.
  - specialize (Hk a e). destruct (k a) as [tr' r]. exact Hk.
Qed.

Lemma raises_foldM {A S} (allowed : exn -> bool) (body : S -> A -> Py.M S)
    (xs : list A) :
  (forall s x, raises allowed (body s x)) ->
  forall s, raises allowed (Py.foldM body xs s).
Proof.
  intros Hbody. induction xs as [|x xs IH]; intros s; cbn [Py.foldM].
  - apply raises_ret.
  - apply raises_bind; [apply Hbody|exact IH].
Qed.

Lemma raises_weaken {A} (P Q : exn -> bool) (m : Py.M A) :
  (forall e, P e = true -> Q e = true) -> raises P m -> raises Q m.
Proof. intros HPQ Hm e He. apply HPQ, Hm, He. Qed.

Lemma lookup_error_loop_error (e : exn) :
  lookup_error e = true -> loop_error e = true.
Proof. destruct e; cbn; congruence. Qed.

Lemma raises_get (d : yaml) (k : string) (default : yaml) :
  raises lookup_error (Py.get d k default).
Proof.
  destruct d; try (apply raises_raise; reflexivity).
  cbn. destruct (Py.dict_get m k); apply raises_ret.
Qed.

Lemma raises_getitem (d : yaml) (k : string) :
  raises lookup_error (Py.getitem d k).
Proof.
  destruct d; try (apply raises_raise; reflexivity).
  cbn. destruct (Py.dict_get m k);
    [apply raises_ret|apply raises_raise; reflexivity].
Qed.

Lemma raises_iter (v : yaml) : raises lookup_error (Py.iter v).
Proof.
  destruct v; cbn; try (apply raises_raise; reflexivity); apply raises_ret.
Qed.

Lemma lookup_error_dispatch_error (e : exn) :
  lookup_error e = true -> dispatch_error e = true.
Proof. destruct e; cbn; congruence. Qed.

Lemma dispatch_error_body_error (e : exn) :
  dispatch_error e = true -> body_error e = true.
Proof. destruct e; cbn; congruence. Qed.



Section Exceptions.

Variable KEYCODES : string -> option Z.

Lemma raises_write_key (value : Z) (k : yaml) :
  raises lookup_error (write_key KEYCODES value k).
Proof.
  unfold write_key. apply raises_bind; [|intros; apply raises_emit].
  destruct k; cbn; try (apply raises_raise; reflexivity).
  destruct (KEYCODES s); [apply raises_ret|apply raises_raise; reflexivity].
Qed.

Lemma raises_press_combo (keys : yaml) :
  raises lookup_error (press_combo KEYCODES keys).
Proof.
  unfold press_combo, Py.forM_.
  repeat first
    [ apply raises_bind; [|intros ?]
    | apply raises_iter
    | apply raises_foldM; intros; apply raises_write_key
    | apply raises_emit ].
Qed.

(** The exceptions of a dispatch, for a class [allowed] that holds the
    failed lookups, the ValueError of a NUL character, and the failures of
    the launches that the sinks [sk] refuse. *)
Section Launches.

Variable allowed : exn -> bool.
Variable sk : string -> sinks.

Hypothesis allowed_lookup : forall e, lookup_error e = true -> allowed e = true.
Hypothesis allowed_value : forall msg, allowed (ValueError msg) = true.
Hypothesis allowed_launch :
  forall name f,
    launch_error (sk name) = Some f -> allowed (launch_exn f) = true.

Lemma raises_looked_up {A} (m : Py.M A) :
  raises lookup_error m -> raises allowed m.
Proof. apply raises_weaken, allowed_lookup. Qed.

Lemma raises_shell_arg (v : yaml) : raises allowed (shell_arg v).
Proof.
  destruct v; cbn;
    try (apply raises_raise, allowed_lookup; reflexivity).
  destruct (has_nul s); [apply raises_raise, allowed_value|apply raises_ret].
Qed.

Lemma raises_shell_args (l : list yaml) : raises allowed (shell_args l).
Proof.
  induction l as [|v l IH]; cbn [shell_args]; [apply raises_ret|].
  apply raises_bind; [apply raises_shell_arg|intros a].
  apply raises_bind; [exact IH|intros; apply raises_ret].
Qed.

Lemma raises_shell_items (cmd : yaml) : raises allowed (shell_items cmd).
Proof.
  destruct cmd; cbn [shell_items];
    try (apply raises_raise, allowed_lookup; reflexivity);
    apply raises_ret.
Qed.

Lemma raises_popen (name : string) (cmd : yaml) :
  raises allowed (popen (sk name) cmd).
Proof.
  unfold popen.
  apply raises_bind; [apply raises_shell_items|intros items].
  destruct (launch_error (sk name)) as [f|] eqn:Hf.
  - assert (Hraise : raises allowed (Py.raise (A := unit) (launch_exn f)))
      by apply raises_raise, (allowed_launch name f Hf).
    destruct f; try exact Hraise;
      (apply raises_bind; [apply raises_shell_args|intros _; exact Hraise]).
  - apply raises_bind; [apply raises_shell_args|intros _; apply raises_emit].
Qed.

Lemma raises_do_action (name : string) (spec : yaml) :
  raises allowed (do_action KEYCODES (sk name) spec).
Proof.
  unfold do_action.
  apply raises_bind; [apply raises_looked_up, raises_get|intros t].
  destruct (is_str t "key").
  - apply raises_looked_up.
    apply raises_bind; [apply raises_getitem|intros; apply raises_press_combo].
  - destruct (is_str t "shell"); [|apply raises_ret].
    apply raises_bind; [apply raises_looked_up, raises_getitem|intros].
    apply raises_popen.
Qed.

Lemma raises_handle_edge (bindings : yaml) (curr : Z)
    (e : string * Z * string) :
  raises allowed (handle_edge KEYCODES sk bindings curr e).
Proof.
  rewrite handle_edge_split. intros x Hx. cbn [Py.result snd] in Hx.
  revert x Hx.
  change (raises allowed
            (spec <- Py.get bindings (edge_name e) YNull ;;
             if Py.truthy spec then do_action KEYCODES (sk (edge_name e)) spec
             else Py.ret tt)).
  apply raises_bind; [apply raises_looked_up, raises_get|intros spec].
  destruct (Py.truthy spec); [apply raises_do_action|apply raises_ret].
Qed.

Lemma raises_handle_edges (bindings : yaml) (curr : Z)
    (es : list (string * Z * string)) :
  raises allowed (handle_edges KEYCODES sk bindings curr es).
Proof.
  unfold handle_edges, Py.forM_.
  apply raises_foldM. intros. apply raises_handle_edge.
Qed.

Lemma raises_dispatch_edges_in (bindings : yaml) (prev curr : Z) :
  raises allowed (dispatch_edges KEYCODES sk bindings prev curr).
Proof.
  unfold dispatch_edges.
  apply raises_bind.
  - rewrite decode_edges_flat_map. apply raises_ret.
  - intros edges. apply raises_handle_edges.
Qed.

End Launches.

Lemma raises_dispatch_edges (sk : string -> sinks) (bindings : yaml)
    (prev curr : Z) :
  raises dispatch_error (dispatch_edges KEYCODES sk bindings prev curr).
Proof.
  apply raises_dispatch_edges_in.
  - exact lookup_error_dispatch_error.
  - reflexivity.
  - intros name [| |] _; reflexivity.
Qed.


End Exceptions.

(** ** Dispatch *)

Section Dispatch.

Variable KEYCODES : string -> option Z.

Lemma do_action_key (sk : sinks) (spec : list (string * yaml)) :
  (Py.dict_get spec "type" = None
   \/ Py.dict_get spec "type" = Some (YStr "key")) ->
  do_action KEYCODES sk (YMap spec)
  = (keys <- Py.getitem (YMap spec) "keys" ;; press_combo KEYCODES keys).
Proof.
  intros [H|H]; unfold do_action; cbn [Py.get]; rewrite H;
    rewrite bind_ret_l; reflexivity.
Qed.

(** C10: an action mapping without a 'type' entry is dispatched as a key
    combination, exactly as if it said type 'key': [do_action] takes its
    'keys' entry (KeyError when there is none) and runs [press_combo] on
    it, so that a list of known keys is pressed, released in reverse and
    synchronized. *)
Theorem do_action_type_defaults_to_key (sk : sinks)
    (spec : list (string * yaml)) :
  Py.dict_get spec "type" = None ->
  do_action KEYCODES sk (YMap spec)
  = do_action KEYCODES sk (YMap (("type", YStr "key") :: spec))
  /\ do_action KEYCODES sk (YMap spec)
     = (keys <- Py.getitem (YMap spec) "keys" ;; press_combo KEYCODES keys)
  /\ forall ks,
      Py.dict_get spec "keys" = Some (YSeq (map YStr ks)) ->
      Forall (known_key KEYCODES) ks ->
      do_action KEYCODES sk (YMap spec)
      = (map (press KEYCODES) ks ++ map (unpress KEYCODES) (rev ks) ++ [UiSyn],
         inr tt).
Proof.
  intros Hno. split; [|split].
  - rewrite do_action_key by (left; exact Hno).
    rewrite (do_action_key sk (("type", YStr "key") :: spec))
      by (right; reflexivity).
    reflexivity.
  - apply do_action_key. left. exact Hno.
  - intros ks Hkeys Hknown.
    rewrite do_action_key by (left; exact Hno).
    cbn [Py.getitem]. rewrite Hkeys. unfold Py.ret. rewrite bind_value.
    rewrite press_combo_known by exact Hknown. reflexivity.
Qed.

Lemma do_action_unknown_key (sk : sinks) (pre : list string) (k : string)
    (rest : list string) :
  Forall (known_key KEYCODES) pre ->
  KEYCODES k = None ->
  do_action KEYCODES sk
    (YMap [("type", YStr "key"); ("keys", YSeq (map YStr (pre ++ k :: rest)))])
  = (map (press KEYCODES) pre, inl (KeyError (YStr k))).
Proof.
  intros Hpre Hk. rewrite do_action_key by (right; reflexivity).
  cbn [Py.getitem Py.dict_get String.eqb Ascii.eqb Bool.eqb].
  unfold Py.ret. rewrite bind_value.
  rewrite press_combo_unknown by assumption. reflexivity.
Qed.

Lemma do_action_shell (sk : sinks) (spec : list (string * yaml)) :
  Py.dict_get spec "type" = Some (YStr "shell") ->
  do_action KEYCODES sk (YMap spec)
  = (cmd <- Py.getitem (YMap spec) "cmd" ;; popen sk cmd).
Proof.
  intros H. unfold do_action. cbn [Py.get]. rewrite H, bind_ret_l.
  reflexivity.
Qed.

Lemma popen_string (sk : sinks) (cmd : string) :
  has_nul cmd = false ->
  popen sk (YStr cmd)
  = match launch_error sk with
    | None => ([Popen (YStr cmd)], inr tt)
    | Some f => ([], inl (launch_exn f))
    end.
Proof.
  intros Hnul. unfold popen. cbn [shell_items]. rewrite bind_ret_l.
  cbn [shell_args shell_arg]. rewrite Hnul, !bind_ret_l.
  destruct (launch_error sk) as [[| |]|]; reflexivity.
Qed.

Lemma do_action_launch_fails (sk : sinks) (spec : list (string * yaml))
    (cmd : string) (f : launch_failure) :
  Py.dict_get spec "type" = Some (YStr "shell") ->
  Py.dict_get spec "cmd" = Some (YStr cmd) ->
  has_nul cmd = false ->
  launch_error sk = Some f ->
  do_action KEYCODES sk (YMap spec) = ([], inl (launch_exn f)).
Proof.
  intros Ht Hc Hnul Hf. rewrite do_action_shell by exact Ht.
  cbn [Py.getitem]. rewrite Hc, bind_ret_l, popen_string by exact Hnul.
  rewrite Hf. reflexivity.
Qed.

Lemma lookup_error_not_blocking (e : exn) :
  lookup_error e = true -> is_BlockingIOError e = false.
Proof. destruct e; cbn; congruence. Qed.

Lemma iteration_dispatch_fails (sk : string -> sinks) (bindings : yaml) (p : Z)
    (b : Byte.byte) (e : exn) :
  byte_value b <> p ->
  Py.result (dispatch_edges KEYCODES sk bindings p (byte_value b)) = inl e ->
  is_BlockingIOError e = false ->
  iteration KEYCODES sk bindings (Some p) (RData b)
  = (OsRead (RData b)
       :: Py.trace (dispatch_edges KEYCODES sk bindings p (byte_value b)),
     inl e).
Proof.
  intros Hne Hd Hb.
  unfold iteration, try_body.
  rewrite (proj2 (Z.eqb_neq _ _) Hne).
  destruct (dispatch_edges KEYCODES sk bindings p (byte_value b)) as [tr r].
  cbn in Hd. subst r. cbn. rewrite Hb. reflexivity.
Qed.

Lemma iteration_dispatch_blocked (sk : string -> sinks) (bindings : yaml) (p : Z)
    (b : Byte.byte) :
  byte_value b <> p ->
  Py.result (dispatch_edges KEYCODES sk bindings p (byte_value b))
  = inl BlockingIOError ->
  iteration KEYCODES sk bindings (Some p) (RData b)
  = (OsRead (RData b)
       :: Py.trace (dispatch_edges KEYCODES sk bindings p (byte_value b))
       ++ [Sleep],
     inr (Some p)).
Proof.
  intros Hne Hd.
  unfold iteration, try_body.
  rewrite (proj2 (Z.eqb_neq _ _) Hne).
  destruct (dispatch_edges KEYCODES sk bindings p (byte_value b)) as [tr r].
  cbn in Hd. subst r. cbn. rewrite app_nil_r. reflexivity.
Qed.

Lemma iteration_dispatch_succeeds (sk : string -> sinks) (bindings : yaml) (p : Z)
    (b : Byte.byte) :
  byte_value b <> p ->
  Py.result (dispatch_edges KEYCODES sk bindings p (byte_value b)) = inr tt ->
  iteration KEYCODES sk bindings (Some p) (RData b)
  = (OsRead (RData b)
       :: Py.trace (dispatch_edges KEYCODES sk bindings p (byte_value b))
       ++ [Sleep],
     inr (Some (byte_value b))).
Proof.
  intros Hne Hd.
  unfold iteration, try_body.
  rewrite (proj2 (Z.eqb_neq _ _) Hne).
  destruct (dispatch_edges KEYCODES sk bindings p (byte_value b)) as [tr r].
  cbn in Hd. subst r. cbn. rewrite app_nil_r. reflexivity.
Qed.

(** C3, amended: [do_action] has no handler of its own.  A key
    combination that names a key outside the table makes it raise KeyError
    to its caller after the presses of the keys before it, and a command
    whose launch fails makes it raise the exception of the launch; an
    exception other than BlockingIOError raised while the edges of a cycle
    are dispatched leaves the poll loop, so that the rest of the cycle and
    all later passes do not run and the cycle does not update the previous
    state; a BlockingIOError of the dispatch is taken by the handler of
    the read, so that the pass ends after the sleep with the rest of the
    cycle skipped and the previous state not updated; only when the
    dispatch of the whole cycle succeeds does the pass end, after the
    sleep, with the new mask as previous state. *)
Theorem dispatch_failure_leaves_poll_loop :
  (forall sk pre k rest,
      Forall (known_key KEYCODES) pre ->
      KEYCODES k = None ->
      do_action KEYCODES sk
        (YMap [("type", YStr "key");
               ("keys", YSeq (map YStr (pre ++ k :: rest)))])
      = (map (press KEYCODES) pre, inl (KeyError (YStr k))))
  /\ (forall sk spec cmd f,
         Py.dict_get spec "type" = Some (YStr "shell") ->
         Py.dict_get spec "cmd" = Some (YStr cmd) ->
         has_nul cmd = false ->
         launch_error sk = Some f ->
         do_action KEYCODES sk (YMap spec) = ([], inl (launch_exn f)))
  /\ (forall sks bindings p b ticks e,
         byte_value b <> p ->
         Py.result (dispatch_edges KEYCODES (sks O) bindings p (byte_value b))
         = inl e ->
         is_BlockingIOError e = false ->
         poll_loop KEYCODES sks bindings (Some p) (Tick (RData b) :: ticks)
         = (OsRead (RData b)
              :: Py.trace (dispatch_edges KEYCODES (sks O) bindings p
                             (byte_value b)),
            inl e))
  /\ (forall sk bindings p b,
         byte_value b <> p ->
         Py.result (dispatch_edges KEYCODES sk bindings p (byte_value b))
         = inl BlockingIOError ->
         iteration KEYCODES sk bindings (Some p) (RData b)
         = (OsRead (RData b)
              :: Py.trace (dispatch_edges KEYCODES sk bindings p (byte_value b))
              ++ [Sleep],
            inr (Some p)))
  /\ (forall sk bindings p b,
         byte_value b <> p ->
         Py.result (dispatch_edges KEYCODES sk bindings p (byte_value b))
         = inr tt ->
         iteration KEYCODES sk bindings (Some p) (RData b)
         = (OsRead (RData b)
              :: Py.trace (dispatch_edges KEYCODES sk bindings p (byte_value b))
              ++ [Sleep],
            inr (Some (byte_value b)))).
Proof.
  split; [exact do_action_unknown_key|].
  split; [exact do_action_launch_fails|]. split; [|split].
  - intros sks bindings p b ticks e Hne Hd Hb.
    cbn [poll_loop run_tick].
    rewrite (iteration_dispatch_fails (sks O) bindings p b e Hne Hd Hb).
    reflexivity.
  - exact iteration_dispatch_blocked.
  - exact iteration_dispatch_succeeds.
Qed.

End Dispatch.

Lemma do_action_type_defaults_to_key_witness :
  Py.dict_get [("keys", YSeq [YStr "KEY_LEFTCTRL"; YStr "KEY_LEFTSHIFT"; YStr "KEY_M"])]
    "type" = None
  /\ do_action sample_KEYCODES quiet_sinks
       (YMap [("keys", YSeq [YStr "KEY_LEFTCTRL"; YStr "KEY_LEFTSHIFT"; YStr "KEY_M"])])
     = ([UiWrite 29 1; UiWrite 42 1; UiWrite 50 1;
         UiWrite 50 0; UiWrite 42 0; UiWrite 29 0; UiSyn], inr tt).
Proof.
  split; [reflexivity|].
  exact (proj2 (proj2 (do_action_type_defaults_to_key sample_KEYCODES quiet_sinks
           [("keys", YSeq [YStr "KEY_LEFTCTRL"; YStr "KEY_LEFTSHIFT"; YStr "KEY_M"])]
           eq_refl))
           ["KEY_LEFTCTRL"; "KEY_LEFTSHIFT"; "KEY_M"] eq_refl sample_keys_known).
Defined.

Lemma dispatch_failure_leaves_poll_loop_witness :
  (Forall (known_key sample_KEYCODES) []
   /\ sample_KEYCODES "NOT_A_KEY" = None
   /\ do_action sample_KEYCODES quiet_sinks bad_combo
      = ([], inl (KeyError (YStr "NOT_A_KEY"))))
  /\ (launch_error (failing_launch LaunchOSError) = Some LaunchOSError
      /\ do_action sample_KEYCODES (failing_launch LaunchOSError) true_command
         = ([], inl OSError))
  /\ (byte_value Byte.x81 <> 0
      /\ Py.result (dispatch_edges sample_KEYCODES (everywhere quiet_sinks)
                      bad_combo_bindings 0 (byte_value Byte.x81))
         = inl (KeyError (YStr "NOT_A_KEY"))
      /\ Py.result (poll_loop sample_KEYCODES (always quiet_sinks)
                      bad_combo_bindings (Some 0)
                      [Tick (RData Byte.x81); Tick (RData Byte.x00)])
         = inl (KeyError (YStr "NOT_A_KEY")))
  /\ (byte_value Byte.x81 <> 0
      /\ Py.result (dispatch_edges sample_KEYCODES
                      (everywhere (failing_launch LaunchBlocked))
                      (YMap [("mute_on", true_command)]) 0
                      (byte_value Byte.x81))
         = inl BlockingIOError
      /\ Py.result (iteration sample_KEYCODES
                      (everywhere (failing_launch LaunchBlocked))
                      (YMap [("mute_on", true_command)]) (Some 0)
                      (RData Byte.x81))
         = inr (Some 0))
  /\ (byte_value Byte.x01 <> 0
      /\ Py.result (dispatch_edges sample_KEYCODES (everywhere quiet_sinks)
                      bad_combo_bindings 0 (byte_value Byte.x01)) = inr tt
      /\ Py.result (iteration sample_KEYCODES (everywhere quiet_sinks)
                      bad_combo_bindings (Some 0) (RData Byte.x01))
         = inr (Some 1)).
Proof.
  destruct (dispatch_failure_leaves_poll_loop sample_KEYCODES)
    as [Hact [Hlaunch [Hfail [Hblock Hok]]]].
  split; [|split; [|split; [|split]]].
  - split; [constructor|]. split; [reflexivity|].
    exact (Hact quiet_sinks [] "NOT_A_KEY" [] (Forall_nil _) eq_refl).
  - split; [reflexivity|].
    exact (Hlaunch (failing_launch LaunchOSError)
             [("type", YStr "shell"); ("cmd", YStr "true")] "true"
             LaunchOSError eq_refl eq_refl eq_refl eq_refl).
  - split; [discriminate|]. split; [reflexivity|].
    rewrite (Hfail (always quiet_sinks) bad_combo_bindings 0 Byte.x81
               [Tick (RData Byte.x00)] (KeyError (YStr "NOT_A_KEY")));
      [reflexivity|discriminate|reflexivity|reflexivity].
  - split; [discriminate|]. split; [reflexivity|].
    rewrite (Hblock (everywhere (failing_launch LaunchBlocked))
               (YMap [("mute_on", true_command)]) 0 Byte.x81);
      [reflexivity|discriminate|reflexivity].
  - split; [discriminate|]. split; [reflexivity|].
    rewrite (Hok (everywhere quiet_sinks) bad_combo_bindings 0 Byte.x01);
      [reflexivity|discriminate|reflexivity].
Defined.

(** C3 as stated fails: on a key combination with an unknown key name
    [do_action] raises KeyError to its caller, and in the daemon the
    exception ends the loop in the middle of the cycle: the all_on edge of
    the same cycle is never processed and no later read happens. *)
Lemma do_action_raises_to_the_loop :
  do_action sample_KEYCODES quiet_sinks bad_combo
  = ([], inl (KeyError (YStr "NOT_A_KEY")))
  /\ main sample_KEYCODES
       (sample_world
          (Doc (YMap [("bindings",
                       YMap [("mute_on", bad_combo);
                             ("all_on", YMap [("type", YStr "shell");
                                              ("cmd", YStr "true")])])])))
       [Tick (RData Byte.x00); Tick (RData Byte.x81); Tick (RData Byte.x00)]
     = ([Print "[GV] Using /dev/hidraw0"; UiOpen; FdOpen "/dev/hidraw0";
         Print "[GV] Daemon running. Press buttons; readable diagnostics below. Ctrl+C to exit.";
         OsRead (RData Byte.x00); Print "[GV] INIT state = 0x00 [none]";
         OsRead (RData Byte.x81);
         Print "[GV] mute_on       . state 0x81 [mute, all]";
         Post {| pl_event := "mute_on"; pl_edge := "on"; pl_mask_hex := "81";
                 pl_mask_int := 129; pl_active := ["mute"; "all"] |};
         UiClose; FdClose],
        inl (KeyError (YStr "NOT_A_KEY"))).
Proof. split; reflexivity. Qed.

(** ** The poll loop *)

Section Loop.

Variable KEYCODES : string -> option Z.

Lemma raises_try_body (sk : string -> sinks) (bindings : yaml) (prev : option Z)
    (r : read_result) :
  raises body_error (try_body KEYCODES sk bindings prev r).
Proof.
  unfold try_body.
  apply raises_bind; [apply raises_emit|intros _].
  destruct r as [b| | |].
  - destruct prev as [p|].
    + destruct (byte_value b =? p); [apply raises_ret|].
      apply raises_bind; [|intros; apply raises_ret].
      apply (raises_weaken dispatch_error); [|apply raises_dispatch_edges].
      exact dispatch_error_body_error.
    + apply raises_bind.
      * destruct (fmt_mask_total (byte_value b)) as [state ->].
        intros e He. discriminate He.
      * intros state.
        apply raises_bind; [apply raises_emit|intros; apply raises_ret].
  - apply raises_ret.
  - apply raises_raise. reflexivity.
  - apply raises_raise. reflexivity.
Qed.

Lemma raises_iteration (sk : string -> sinks) (bindings : yaml) (prev : option Z)
    (r : read_result) :
  raises loop_error (iteration KEYCODES sk bindings prev r).
Proof.
  unfold iteration.
  apply raises_bind.
  - assert (H := raises_try_body sk bindings prev r).
    destruct (try_body KEYCODES sk bindings prev r) as [tr [e|st]];
      [|apply raises_ret].
    unfold try_except.
    destruct (is_BlockingIOError e) eqn:Hb; [intros e' He'; discriminate He'|].
    intros e' He'. injection He' as <-.
    specialize (H e eq_refl). unfold body_error in H.
    rewrite Hb, orb_false_r in H. exact H.
  - intros st. destruct (snd st); [apply raises_ret|].
    apply raises_bind; [apply raises_emit|intros; apply raises_ret].
Qed.

Lemma raises_run_tick (sk : string -> sinks) (bindings : yaml) (prev : option Z)
    (t : tick) :
  raises loop_error (run_tick KEYCODES sk bindings prev t).
Proof.
  destruct t as [r|r n]; cbn [run_tick]; [apply raises_iteration|].
  assert (H := raises_iteration sk bindings prev r).
  destruct (iteration KEYCODES sk bindings prev r) as [tr res].
  unfold interrupt_after.
  destruct (n <? List.length tr)%nat.
  - intros e He. injection He as <-. reflexivity.
  - destruct res as [e0|a]; intros e He; injection He as <-.
    + apply (H e0). reflexivity.
    + reflexivity.
Qed.

Lemma raises_poll_loop (bindings : yaml) (ticks : list tick) :
  forall sks prev,
    raises loop_error (poll_loop KEYCODES sks bindings prev ticks).
Proof.
  induction ticks as [|t ticks IH]; intros sks prev; cbn [poll_loop].
  - apply raises_ret.
  - apply raises_bind; [apply raises_run_tick|intros; apply IH].
Qed.

(** Once the loop has been entered, whatever ends it is followed by the
    release of both devices. *)
Lemma main_releases_after_the_loop (override : option string) (w : world)
    (ticks : list tick) (tr0 tr : list event) (bindings : yaml) (e : exn) :
  startup override w = (tr0, inr bindings) ->
  poll_loop KEYCODES (outside w) bindings None ticks = (tr, inl e) ->
  main_with KEYCODES override w ticks
  = (tr0 ++ tr ++ [UiClose; FdClose],
     if is_KeyboardInterrupt e then inr Returned else inl e).
Proof.
  intros Hs Hl. unfold main_with. rewrite Hs, bind_value, Hl.
  unfold try_except, try_finally, release.
  destruct (is_KeyboardInterrupt e); cbn; rewrite ?app_nil_r; reflexivity.
Qed.

Lemma main_still_running (override : option string) (w : world)
    (ticks : list tick) (tr0 tr : list event) (bindings : yaml)
    (prev : option Z) :
  startup override w = (tr0, inr bindings) ->
  poll_loop KEYCODES (outside w) bindings None ticks = (tr, inr prev) ->
  main_with KEYCODES override w ticks = (tr0 ++ tr, inr (Running prev)).
Proof.
  intros Hs Hl. unfold main_with. rewrite Hs, bind_value, Hl. reflexivity.
Qed.

Lemma poll_loop_app (bindings : yaml) (ticks1 ticks2 : list tick) :
  forall sks prev,
    poll_loop KEYCODES sks bindings prev (ticks1 ++ ticks2)
    = (prev' <- poll_loop KEYCODES sks bindings prev ticks1 ;;
       poll_loop KEYCODES (fun n => sks (List.length ticks1 + n)%nat)
         bindings prev' ticks2).
Proof.
  induction ticks1 as [|t ticks1 IH]; intros sks prev; cbn [app poll_loop].
  - rewrite bind_ret_l. reflexivity.
  - rewrite bind_assoc.
    destruct (run_tick KEYCODES (sks O) bindings prev t) as [tr [e|prev']];
      [reflexivity|].
    rewrite !bind_value, IH. reflexivity.
Qed.

Lemma interrupted_tick_raises (sk : string -> sinks) (bindings : yaml)
    (prev : option Z) (r : read_result) (n : nat) :
  exists tr e,
    run_tick KEYCODES sk bindings prev (Interrupted r n) = (tr, inl e).
Proof.
  cbn [run_tick]. unfold interrupt_after.
  destruct (iteration KEYCODES sk bindings prev r) as [tr [e|a]];
    destruct (n <? List.length tr)%nat; eauto.
Qed.

(** Ctrl+C in any pass, at any point of the pass, ends [main] with both
    devices released. *)
Lemma main_interrupted_releases (override : option string) (w : world)
    (ticks rest : list tick) (r : read_result) (n : nat)
    (tr0 trl : list event) (bindings : yaml) (prev : option Z) :
  startup override w = (tr0, inr bindings) ->
  poll_loop KEYCODES (outside w) bindings None ticks = (trl, inr prev) ->
  exists tr e,
    main_with KEYCODES override w (ticks ++ Interrupted r n :: rest)
    = (tr0 ++ (trl ++ tr) ++ [UiClose; FdClose],
       if is_KeyboardInterrupt e then inr Returned else inl e).
Proof.
  intros Hs Hl.
  destruct (interrupted_tick_raises (outside w (List.length ticks + 0)%nat)
              bindings prev r n) as [tr [e Ht]].
  exists tr, e.
  apply (main_releases_after_the_loop override w _ tr0 (trl ++ tr) bindings e Hs).
  rewrite poll_loop_app, Hl, bind_value.
  cbn [poll_loop]. rewrite Ht. reflexivity.
Qed.

Lemma main_startup_fails (override : option string) (w : world)
    (ticks : list tick) (tr0 : list event) (e : exn) :
  startup override w = (tr0, inl e) ->
  main_with KEYCODES override w ticks = (tr0, inl e).
Proof. intros Hs. unfold main_with. rewrite Hs. reflexivity. Qed.

End Loop.

(** ** Startup *)

Lemma load_map_malformed (data : yaml) :
  has_bindings data = false ->
  load_map (Doc data) = ([], inl missing_bindings).
Proof.
  unfold has_bindings, load_map.
  destruct data; try reflexivity.
  destruct (Py.dict_get m "bindings"); [discriminate|reflexivity].
Qed.

Lemma load_map_unchecked (m : list (string * yaml)) (b : yaml) :
  Py.dict_get m "bindings" = Some b ->
  load_map (Doc (YMap m)) = ([], inr b).
Proof. intros H. unfold load_map. rewrite H. reflexivity. Qed.

Lemma raises_load_map (f : map_file) : raises not_exit (load_map f).
Proof.
  destruct f as [| |data]; try (apply raises_raise; reflexivity).
  destruct data; try (apply raises_raise; reflexivity).
  cbn. destruct (Py.dict_get m "bindings");
    [apply raises_ret|apply raises_raise; reflexivity].
Qed.

Lemma opt_truthy_some (o : option string) :
  opt_truthy o = true -> exists path, o = Some path.
Proof. destruct o as [path|]; [eauto|discriminate]. Qed.

(** What [startup] does, by cases on the environment. *)
Lemma startup_cases (override : option string) (w : world) :
  (opt_truthy override = false
   /\ startup override w = ([], inl (NameError "true")))
  \/ exists path,
      override = Some path
      /\ startup override w
         = if uinput_ok w then
             if node_ok w path then
               match load_map (gvmap w) with
               | (_, inr bindings) =>
                   ([Print ("[GV] Using " ++ path)%string; UiOpen; FdOpen path;
                     Print "[GV] Daemon running. Press buttons; readable diagnostics below. Ctrl+C to exit."],
                    inr bindings)
               | (_, inl e) =>
                   ([Print ("[GV] Using " ++ path)%string; UiOpen; FdOpen path],
                    inl e)
               end
             else ([Print ("[GV] Using " ++ path)%string; UiOpen], inl OSError)
           else ([Print ("[GV] Using " ++ path)%string], inl OSError).
Proof.
  destruct (opt_truthy override) eqn:Ho.
  - right. destruct (opt_truthy_some override Ho) as [path ->].
    exists path. split; [reflexivity|].
    unfold startup. rewrite Ho. rewrite bind_ret_l. rewrite Ho.
    destruct (uinput_ok w); [|reflexivity].
    destruct (node_ok w path); [|reflexivity].
    assert (Hl : Py.trace (load_map (gvmap w)) = []).
    { destruct (gvmap w) as [| |data]; try reflexivity.
      destruct data; try reflexivity.
      cbn. destruct (Py.dict_get m "bindings"); reflexivity. }
    destruct (load_map (gvmap w)) as [trl [e|bindings]];
      cbn in Hl; subst trl; reflexivity.
  - left. split; [reflexivity|].
    unfold startup. rewrite Ho. reflexivity.
Qed.

Lemma raises_startup (override : option string) (w : world) :
  raises not_exit (startup override w).
Proof.
  destruct (startup_cases override w) as [[_ ->]|[path [-> ->]]].
  - intros e He. injection He as <-. reflexivity.
  - destruct (uinput_ok w); [|intros e He; injection He as <-; reflexivity].
    destruct (node_ok w path); [|intros e He; injection He as <-; reflexivity].
    assert (H := raises_load_map (gvmap w)).
    destruct (load_map (gvmap w)) as [trl [e0|bindings]].
    + intros e He. injection He as <-. apply (H e0). reflexivity.
    + intros e He. discriminate He.
Qed.

Lemma startup_without_bindings (override : option string) (w : world)
    (data : yaml) :
  gvmap w = Doc data ->
  has_bindings data = false ->
  exists tr0 e,
    startup override w = (tr0, inl e) /\ filter is_OsRead tr0 = [].
Proof.
  intros Hw Hdata.
  destruct (startup_cases override w) as [[_ ->]|[path [-> ->]]].
  - do 2 eexists. split; reflexivity.
  - rewrite Hw, (load_map_malformed data Hdata).
    destruct (uinput_ok w); [destruct (node_ok w path)|];
      do 2 eexists; split; reflexivity.
Qed.

Lemma exit_status_error (e : exn) :
  not_exit e = true -> exit_status (inl e) = Exit 1.
Proof. destruct e; cbn; congruence. Qed.

Lemma loop_error_exit (e : exn) :
  loop_error e = true ->
  exit_status (if is_KeyboardInterrupt e then inr Returned else inl e)
  = (if is_KeyboardInterrupt e then Exit 0 else Exit 1).
Proof. destruct e; cbn; congruence. Qed.

(** The exit statuses that [main] can produce. *)
Lemma main_exit_status (KEYCODES : string -> option Z)
    (override : option string) (w : world) (ticks : list tick) :
  let status := exit_status (Py.result (main_with KEYCODES override w ticks)) in
  status = Alive \/ status = Exit 0 \/ status = Exit 1.
Proof.
  cbv zeta.
  assert (Hs := raises_startup override w).
  destruct (startup override w) as [tr0 [e|bindings]] eqn:Es.
  - rewrite (main_startup_fails KEYCODES override w ticks tr0 e Es).
    right; right. apply exit_status_error, (Hs e). reflexivity.
  - assert (Hl := raises_poll_loop KEYCODES bindings ticks (outside w) None).
    destruct (poll_loop KEYCODES (outside w) bindings None ticks)
      as [tr [e|prev]] eqn:El.
    + rewrite (main_releases_after_the_loop KEYCODES override w ticks
                 tr0 tr bindings e Es El).
      cbn [Py.result snd]. rewrite loop_error_exit by (apply (Hl e); reflexivity).
      destruct (is_KeyboardInterrupt e); auto.
    + rewrite (main_still_running KEYCODES override w ticks
                 tr0 tr bindings prev Es El).
      left. reflexivity.
Qed.

(** ** Malformed configuration *)

Lemma do_action_unknown_kind (KEYCODES : string -> option Z) (sk : sinks)
    (spec : list (string * yaml)) (kind : yaml) :
  Py.dict_get spec "type" = Some kind ->
  is_str kind "key" = false ->
  is_str kind "shell" = false ->
  do_action KEYCODES sk (YMap spec) = ([], inr tt).
Proof.
  intros Ht Hk Hs. unfold do_action. cbn [Py.get]. rewrite Ht, bind_ret_l.
  rewrite Hk, Hs. reflexivity.
Qed.

(** C4, amended: a loaded document that is not a mapping with the
    top-level 'bindings' key is a fatal startup error: [main] ends with an
    exception (the ValueError of [load_map] once both devices are open)
    and never reads the device.  The entries under 'bindings' are not
    checked at startup: [load_map] returns them as they are, and an action
    whose type is neither 'key' nor 'shell' is accepted and, when its event
    is dispatched, does nothing and raises nothing. *)
Theorem malformed_top_level_is_fatal (KEYCODES : string -> option Z) :
  (forall override w ticks data,
      gvmap w = Doc data ->
      has_bindings data = false ->
      (exists e, Py.result (main_with KEYCODES override w ticks) = inl e)
      /\ filter is_OsRead (Py.trace (main_with KEYCODES override w ticks)) = [])
  /\ (forall w ticks data,
         gvmap w = Doc data ->
         has_bindings data = false ->
         uinput_ok w = true ->
         node_ok w "/dev/hidraw0" = true ->
         Py.result (main KEYCODES w ticks) = inl missing_bindings)
  /\ (forall m b,
         Py.dict_get m "bindings" = Some b ->
         load_map (Doc (YMap m)) = ([], inr b))
  /\ (forall sk spec kind,
         Py.dict_get spec "type" = Some kind ->
         is_str kind "key" = false ->
         is_str kind "shell" = false ->
         do_action KEYCODES sk (YMap spec) = ([], inr tt)).
Proof.
  split; [|split; [|split]].
  - intros override w ticks data Hw Hdata.
    destruct (startup_without_bindings override w data Hw Hdata)
      as [tr0 [e [Hs Hreads]]].
    rewrite (main_startup_fails KEYCODES override w ticks tr0 e Hs).
    split; [exists e; reflexivity|exact Hreads].
  - intros w ticks data Hw Hdata Hui Hnode.
    unfold main.
    rewrite (main_startup_fails KEYCODES HIDRAW_OVERRIDE w ticks
               [Print "[GV] Using /dev/hidraw0"; UiOpen; FdOpen "/dev/hidraw0"]
               missing_bindings); [reflexivity|].
    destruct (startup_cases HIDRAW_OVERRIDE w) as [[Ho _]|[path [Hp ->]]];
      [discriminate Ho|].
    injection Hp as <-.
    rewrite Hui, Hnode, Hw, (load_map_malformed data Hdata). reflexivity.
  - exact load_map_unchecked.
  - exact (do_action_unknown_kind KEYCODES).
Qed.

Lemma malformed_top_level_is_fatal_witness :
  (has_bindings (YSeq [YStr "mute_on"]) = false
   /\ Py.result (main sample_KEYCODES (sample_world (Doc (YSeq [YStr "mute_on"])))
                   [Tick (RData Byte.x00); Tick (RData Byte.x80)])
      = inl missing_bindings
   /\ filter is_OsRead
        (Py.trace (main sample_KEYCODES
                     (sample_world (Doc (YSeq [YStr "mute_on"])))
                     [Tick (RData Byte.x00); Tick (RData Byte.x80)])) = [])
  /\ load_map (Doc (YMap [("bindings", YMap [("mute_on", YMap [("type", YStr "bogus")])])]))
     = ([], inr (YMap [("mute_on", YMap [("type", YStr "bogus")])]))
  /\ do_action sample_KEYCODES quiet_sinks (YMap [("type", YStr "bogus")])
     = ([], inr tt).
Proof.
  destruct (malformed_top_level_is_fatal sample_KEYCODES)
    as [Hfatal [Hvalue [Hload Hkind]]].
  split; [split; [reflexivity|split]|split].
  - exact (Hvalue (sample_world (Doc (YSeq [YStr "mute_on"])))
             [Tick (RData Byte.x00); Tick (RData Byte.x80)]
             (YSeq [YStr "mute_on"]) eq_refl eq_refl eq_refl eq_refl).
  - exact (proj2 (Hfatal HIDRAW_OVERRIDE
                    (sample_world (Doc (YSeq [YStr "mute_on"])))
                    [Tick (RData Byte.x00); Tick (RData Byte.x80)]
                    (YSeq [YStr "mute_on"]) eq_refl eq_refl)).
  - exact (Hload [("bindings", YMap [("mute_on", YMap [("type", YStr "bogus")])])]
             (YMap [("mute_on", YMap [("type", YStr "bogus")])]) eq_refl).
  - exact (Hkind quiet_sinks [("type", YStr "bogus")] (YStr "bogus")
             eq_refl eq_refl eq_refl).
Defined.

(** C4 as stated fails for an action of unknown kind: the mapping file is
    accepted, the daemon enters the poll loop and reads the device, and
    the mute_on edge bound to the unknown kind is logged and notified
    while the action itself is silently skipped. *)
Lemma unknown_kind_is_polled_with :
  main sample_KEYCODES
    (sample_world
       (Doc (YMap [("bindings",
                    YMap [("mute_on", YMap [("type", YStr "bogus")])])])))
    [Tick (RData Byte.x00); Tick (RData Byte.x80)]
  = ([Print "[GV] Using /dev/hidraw0"; UiOpen; FdOpen "/dev/hidraw0";
      Print "[GV] Daemon running. Press buttons; readable diagnostics below. Ctrl+C to exit.";
      OsRead (RData Byte.x00); Print "[GV] INIT state = 0x00 [none]";
      OsRead (RData Byte.x80);
      Print "[GV] mute_on       . state 0x80 [mute]";
      Post {| pl_event := "mute_on"; pl_edge := "on"; pl_mask_hex := "80";
              pl_mask_int := 128; pl_active := ["mute"] |};
      Sleep],
     inr (Running (Some 128))).
Proof. reflexivity. Qed.

(** ** Exit statuses *)

(** C5 on the code: the exit status 3 of "device not found" is never
    produced, whatever the override and the environment.  With the
    override of the source, a hidraw node that cannot be opened ends the
    process with status 1, which is also the status of a mapping file
    without the top-level key; only the interrupt has a status of its own,
    0. *)
Theorem device_missing_exits_like_bad_config
    (KEYCODES : string -> option Z) (ticks : list tick) :
  (forall override w,
      exit_status (Py.result (main_with KEYCODES override w ticks)) <> Exit 3)
  /\ (forall w,
         exit_status (Py.result (main_with KEYCODES None w ticks)) = Exit 1)
  /\ (forall f,
         exit_status (Py.result (main KEYCODES (world_without_device f) ticks))
         = Exit 1)
  /\ exit_status (Py.result (main KEYCODES (sample_world (Doc (YMap []))) ticks))
     = Exit 1
  /\ exit_status
       (Py.result (main KEYCODES
                     (sample_world (Doc (YMap [("bindings", YMap [])])))
                     [Tick RBlocking; Interrupted REmpty 1]))
     = Exit 0.
Proof.
  split; [|split; [|split; [|split]]].
  - intros override w.
    destruct (main_exit_status KEYCODES override w ticks) as [H|[H|H]];
      rewrite H; discriminate.
  - intros w. reflexivity.
  - intros f. reflexivity.
  - reflexivity.
  - reflexivity.
Qed.

(** ** Releasing the devices *)

(** C8 on the code: when the mapping file lacks the top-level key, both
    devices have been opened, [load_map] raises before the [try] is
    entered, and the process ends without closing either of them. *)
Theorem load_failure_leaves_devices_open
    (KEYCODES : string -> option Z) (ticks : list tick) :
  main KEYCODES (sample_world (Doc (YMap []))) ticks
  = ([Print "[GV] Using /dev/hidraw0"; UiOpen; FdOpen "/dev/hidraw0"],
     inl missing_bindings)
  /\ filter is_release
       (Py.trace (main KEYCODES (sample_world (Doc (YMap []))) ticks)) = []
  /\ main KEYCODES (world_without_device (Doc (YMap [("bindings", YMap [])]))) ticks
     = ([Print "[GV] Using /dev/hidraw0"; UiOpen], inl OSError).
Proof. repeat split. Qed.

(** ** Which actions can occur *)

Lemma emits_ret {A} (ok : event -> bool) (a : A) : emits ok (Py.ret a).
Proof. reflexivity. Qed.

Lemma emits_raise {A} (ok : event -> bool) (e : exn) :
  emits ok (Py.raise (A := A) e).
Proof. reflexivity. Qed.

Lemma emits_emit (ok : event -> bool) (ev : event) :
  ok ev = true -> emits ok (Py.emit ev).
Proof. intros H. unfold emits. cbn. rewrite H. reflexivity. Qed.

Lemma emits_bind {A B} (ok : event -> bool) (m : Py.M A) (k : A -> Py.M B) :
  emits ok m -> (forall a, emits ok (k a)) -> emits ok (Py.bind m k).
Proof.
  unfold emits. intros Hm Hk. destruct m as [tr [e|a]]; cbn in *.
  - exact Hm.
  - specialize (Hk a). destruct (k a) as [tr' r]. cbn in *.
    rewrite forallb_app, Hm, Hk. reflexivity.
Qed.

Lemma emits_foldM {A S} (ok : event -> bool) (body : S -> A -> Py.M S)
    (xs : list A) :
  (forall s x, emits ok (body s x)) ->
  forall s, emits ok (Py.foldM body xs s).
Proof.
  intros Hbody. induction xs as [|x xs IH]; intros s; cbn [Py.foldM].
  - apply emits_ret.
  - apply emits_bind; [apply Hbody|exact IH].
Qed.


Lemma emits_silent {A} (ok : event -> bool) (m : Py.M A) :
  Py.trace m = [] -> emits ok m.
Proof. unfold emits. intros ->. reflexivity. Qed.











Section Actions.

Variable KEYCODES : string -> option Z.

Lemma emits_write_key (value : Z) (k : yaml) :
  emits action_event (write_key KEYCODES value k).
Proof.
  unfold write_key. apply emits_bind.
  - apply emits_silent. destruct k; try reflexivity.
    cbn. destruct (KEYCODES s); reflexivity.
  - intros code. apply emits_emit. reflexivity.
Qed.

Lemma emits_iter (ok : event -> bool) (v : yaml) : emits ok (Py.iter v).
Proof. apply emits_silent. destruct v; reflexivity. Qed.

Lemma emits_get (ok : event -> bool) (d : yaml) (k : string) (default : yaml) :
  emits ok (Py.get d k default).
Proof.
  apply emits_silent. destruct d; try reflexivity.
  cbn. destruct (Py.dict_get m k); reflexivity.
Qed.

Lemma emits_getitem (ok : event -> bool) (d : yaml) (k : string) :
  emits ok (Py.getitem d k).
Proof.
  apply emits_silent. destruct d; try reflexivity.
  cbn. destruct (Py.dict_get m k); reflexivity.
Qed.

Lemma emits_press_combo (keys : yaml) :
  emits action_event (press_combo KEYCODES keys).
Proof.
  unfold press_combo, Py.forM_.
  repeat first
    [ apply emits_bind; [|intros ?]
    | apply emits_iter
    | apply emits_foldM; intros; apply emits_write_key
    | apply emits_emit; reflexivity ].
Qed.

Lemma shell_args_silent (l : list yaml) : Py.trace (shell_args l) = [].
Proof.
  induction l as [|v l IH]; [reflexivity|].
  cbn [shell_args].
  destruct v; try reflexivity. cbn [shell_arg].
  destruct (has_nul s); [reflexivity|]. rewrite bind_ret_l.
  destruct (shell_args l) as [tr [e|args]]; cbn in IH; subst tr; reflexivity.
Qed.

Lemma emits_popen (sk : sinks) (cmd : yaml) :
  emits action_event (popen sk cmd).
Proof.
  unfold popen. apply emits_bind.
  - apply emits_silent. destruct cmd; reflexivity.
  - intros items.
    assert (Hargs : forall k : list string -> Py.M unit,
               (forall args, emits action_event (k args)) ->
               emits action_event (Py.bind (shell_args items) k)).
    { intros k Hk. apply emits_bind; [|exact Hk].
      apply emits_silent, shell_args_silent. }
    destruct (launch_error sk) as [[| |]|].
    + apply emits_raise.
    + apply Hargs. intros. apply emits_raise.
    + apply Hargs. intros. apply emits_raise.
    + apply Hargs. intros. apply emits_emit. reflexivity.
Qed.

Lemma emits_do_action (sk : sinks) (spec : yaml) :
  emits action_event (do_action KEYCODES sk spec).
Proof.
  unfold do_action.
  apply emits_bind; [apply emits_get|intros t].
  destruct (is_str t "key").
  - apply emits_bind; [apply emits_getitem|intros; apply emits_press_combo].
  - destruct (is_str t "shell"); [|apply emits_ret].
    apply emits_bind; [apply emits_getitem|].
    intros cmd. apply emits_popen.
Qed.

Lemma emits_bound_action (sk : sinks) (bindings : yaml) (ev_name : string) :
  emits action_event
    (spec <- Py.get bindings ev_name YNull ;;
     if Py.truthy spec then do_action KEYCODES sk spec else Py.ret tt).
Proof.
  apply emits_bind; [apply emits_get|intros spec].
  destruct (Py.truthy spec); [apply emits_do_action|apply emits_ret].
Qed.

(** One turn of the loop body: the log line, the notification, and then
    nothing but actions. *)
Lemma handle_edge_shape (sk : string -> sinks) (bindings : yaml) (curr : Z)
    (e : string * Z * string) :
  exists act,
    Py.trace (handle_edge KEYCODES sk bindings curr e)
    = edge_line curr e :: notification sk curr e ++ act
    /\ forallb action_event act = true.
Proof.
  rewrite handle_edge_split. eexists. split; [reflexivity|].
  apply emits_bound_action.
Qed.



End Actions.

(** ** The edges of one cycle *)

Lemma bind_unit {B} (m : Py.M unit) (k : unit -> Py.M B) :
  Py.bind m k = (m ;;; k tt).
Proof. destruct m as [tr [e|[]]]; reflexivity. Qed.

Lemma bind_fails {A B} (m : Py.M A) (k : A -> Py.M B) (x : exn) :
  Py.result m = inl x -> Py.bind m k = (Py.trace m, inl x).
Proof. destruct m as [tr r]. cbn. intros ->. reflexivity. Qed.

Lemma bind_succeeds {A B} (m : Py.M A) (k : A -> Py.M B) (a : A) :
  Py.result m = inr a ->
  Py.bind m k = (Py.trace m ++ Py.trace (k a), Py.result (k a)).
Proof. destruct m as [tr r]. cbn [Py.result snd]. intros ->. apply bind_value. Qed.

Lemma decode_edges_same (c : Z) (order : list Z) :
  flat_map (edge_entry c c) order = [].
Proof.
  induction order as [|bit order IH]; [reflexivity|].
  cbn. rewrite IH, app_nil_r. unfold edge_entry.
  rewrite Z.lxor_nilpotent. reflexivity.
Qed.

Lemma decoded_edges (p c : Z) (edges : list (string * Z * string)) :
  decode_edges p c = ([], inr edges) ->
  edges = flat_map (edge_entry p c) PRINT_ORDER.
Proof.
  rewrite decode_edges_flat_map. intros H. injection H as <-. reflexivity.
Qed.

Lemma decoded_edges_changed (p c : Z) (edges : list (string * Z * string)) :
  decode_edges p c = ([], inr edges) -> edges <> [] -> c <> p.
Proof.
  intros H Hne ->. apply Hne. rewrite (decoded_edges p p edges H).
  apply decode_edges_same.
Qed.

(** Two edges of one cycle with the same event name are the edge of the
    same flag. *)
Lemma edge_names_distinct (p c : Z) (e1 e2 : string * Z * string) :
  In e1 (flat_map (edge_entry p c) PRINT_ORDER) ->
  In e2 (flat_map (edge_entry p c) PRINT_ORDER) ->
  edge_name e1 = edge_name e2 -> edge_bit e1 = edge_bit e2.
Proof.
  intros H1 H2.
  apply in_flat_map in H1. destruct H1 as [bit1 [Hb1 H1]].
  apply in_flat_map in H2. destruct H2 as [bit2 [Hb2 H2]].
  destruct (edge_entry_shape p c bit1 e1 Hb1 H1) as [-> [Hd1 [base1 [Hn1 ->]]]].
  destruct (edge_entry_shape p c bit2 e2 Hb2 H2) as [-> [Hd2 [base2 [Hn2 ->]]]].
  rewrite Hd1, Hd2. clear Hd1 Hd2 H1 H2.
  unfold PRINT_ORDER in Hb1, Hb2. cbn [In] in Hb1, Hb2.
  repeat (destruct Hb1 as [<-|Hb1]); try (destruct Hb1);
    cbn in Hn1; injection Hn1 as <-;
    repeat (destruct Hb2 as [<-|Hb2]); try (destruct Hb2);
    cbn in Hn2; injection Hn2 as <-;
    try reflexivity;
    destruct (Z.testbit c _), (Z.testbit c _); discriminate.
Qed.

Lemma decoded_edges_NoDup (p c : Z) :
  NoDup (map edge_bit (flat_map (edge_entry p c) PRINT_ORDER)).
Proof.
  rewrite edge_bits_filter by auto. apply NoDup_filter, PRINT_ORDER_NoDup.
Qed.

Lemma other_edges_other_names (p c : Z) (pre post : list (string * Z * string))
    (e e' : string * Z * string) :
  decode_edges p c = ([], inr (pre ++ e :: post)) ->
  In e' (pre ++ post) -> edge_name e' <> edge_name e.
Proof.
  intros Hd Hin Hname.
  assert (Hall := decoded_edges p c _ Hd).
  assert (Hnd := decoded_edges_NoDup p c). rewrite <- Hall in Hnd.
  rewrite map_app in Hnd. cbn [map] in Hnd.
  apply NoDup_remove_2 in Hnd. apply Hnd.
  rewrite <- map_app.
  rewrite <- (edge_names_distinct p c e' e); [apply in_map, Hin| | |exact Hname];
    rewrite <- Hall; apply in_or_app.
  - apply in_app_or in Hin. destruct Hin; [left|right; right]; assumption.
  - right. left. reflexivity.
Qed.

Lemma posted_app (name : string) (tr1 tr2 : list event) :
  posted name (tr1 ++ tr2) = posted name tr1 ++ posted name tr2.
Proof. apply flat_map_app. Qed.

Lemma posted_actions (name : string) (tr : list event) :
  forallb action_event tr = true -> posted name tr = [].
Proof.
  induction tr as [|ev tr IH]; [reflexivity|].
  cbn [forallb]. intros H. apply andb_true_iff in H. destruct H as [Hev Htr].
  unfold posted in *. cbn [flat_map]. rewrite (IH Htr).
  destruct ev; try discriminate Hev; reflexivity.
Qed.

Lemma posted_warning (name : string) (sk : sinks) :
  posted name (post_warning sk) = [].
Proof. unfold post_warning. destruct (post_error sk); reflexivity. Qed.

Section Cycle.

Variable KEYCODES : string -> option Z.
Variable sk : string -> sinks.
Variable bindings : yaml.
Variable curr : Z.

Lemma handle_edges_cons (e : string * Z * string)
    (es : list (string * Z * string)) :
  handle_edges KEYCODES sk bindings curr (e :: es)
  = (handle_edge KEYCODES sk bindings curr e ;;;
     handle_edges KEYCODES sk bindings curr es).
Proof. unfold handle_edges, Py.forM_. cbn [Py.foldM]. apply bind_unit. Qed.

Lemma handle_edges_app (pre post : list (string * Z * string)) :
  handle_edges KEYCODES sk bindings curr (pre ++ post)
  = (handle_edges KEYCODES sk bindings curr pre ;;;
     handle_edges KEYCODES sk bindings curr post).
Proof.
  induction pre as [|e pre IH]; cbn [app].
  - change (handle_edges KEYCODES sk bindings curr []) with (Py.ret tt).
    rewrite bind_ret_l. reflexivity.
  - rewrite !handle_edges_cons, IH, bind_assoc. reflexivity.
Qed.

Lemma dispatch_edges_decoded (p : Z) (edges : list (string * Z * string)) :
  decode_edges p curr = ([], inr edges) ->
  dispatch_edges KEYCODES sk bindings p curr
  = handle_edges KEYCODES sk bindings curr edges.
Proof.
  intros H. unfold dispatch_edges. rewrite H.
  change (@pair (list event) (exn + list (string * Z * string)) [] (inr edges))
    with (Py.ret edges).
  rewrite bind_ret_l. reflexivity.
Qed.

Lemma posted_handle_edge (name : string) (e : string * Z * string) :
  posted name (Py.trace (handle_edge KEYCODES sk bindings curr e))
  = if String.eqb (edge_name e) name then [payload_of curr e] else [].
Proof.
  destruct (handle_edge_shape KEYCODES sk bindings curr e) as [act [-> Hact]].
  change (edge_line curr e :: notification sk curr e ++ act)
    with ([edge_line curr e] ++ notification sk curr e ++ act).
  rewrite !posted_app, (posted_actions name act Hact), app_nil_r.
  unfold notification.
  change (note_of curr e :: post_warning (sk (edge_name e)))
    with ([note_of curr e] ++ post_warning (sk (edge_name e))).
  rewrite posted_app, posted_warning, app_nil_r.
  cbn. destruct (String.eqb (edge_name e) name); reflexivity.
Qed.

Lemma posted_other_edges (name : string) (es : list (string * Z * string)) :
  (forall e', In e' es -> edge_name e' <> name) ->
  posted name (Py.trace (handle_edges KEYCODES sk bindings curr es)) = [].
Proof.
  induction es as [|e es IH]; intros Hes; [reflexivity|].
  rewrite handle_edges_cons.
  assert (He : posted name (Py.trace (handle_edge KEYCODES sk bindings curr e))
               = []).
  { rewrite posted_handle_edge.
    destruct (String.eqb_spec (edge_name e) name) as [E|_]; [|reflexivity].
    destruct (Hes e (or_introl eq_refl) E). }
  destruct (handle_edge KEYCODES sk bindings curr e) as [tr [x|[]]];
    cbn [Py.trace fst] in He.
  - exact He.
  - rewrite bind_value. cbn [Py.trace fst].
    rewrite posted_app, He, IH by (intros; apply Hes; now right).
    reflexivity.
Qed.

(** The trace of a pass that dispatches: the read, the cycle, and the
    sleep unless an exception leaves the pass. *)
Lemma iteration_posts (name : string) (p : Z) (b : Byte.byte) :
  byte_value b <> p -> curr = byte_value b ->
  posted name (Py.trace (iteration KEYCODES sk bindings (Some p) (RData b)))
  = posted name (Py.trace (dispatch_edges KEYCODES sk bindings p curr)).
Proof.
  intros Hne ->.
  assert (Hsleep : forall tr, posted name (OsRead (RData b) :: tr ++ [Sleep])
                              = posted name tr).
  { intros tr. change (OsRead (RData b) :: tr ++ [Sleep])
      with ([OsRead (RData b)] ++ tr ++ [Sleep]).
    rewrite !posted_app. cbn. apply app_nil_r. }
  destruct (Py.result (dispatch_edges KEYCODES sk bindings p (byte_value b)))
    as [x|[]] eqn:Hd.
  - destruct (is_BlockingIOError x) eqn:Hx.
    + destruct x; try discriminate Hx.
      rewrite (iteration_dispatch_blocked KEYCODES sk bindings p b Hne Hd).
      apply Hsleep.
    + rewrite (iteration_dispatch_fails KEYCODES sk bindings p b x Hne Hd Hx).
      reflexivity.
  - rewrite (iteration_dispatch_succeeds KEYCODES sk bindings p b Hne Hd).
    apply Hsleep.
Qed.

End Cycle.

(** C6, amended: an edge of a cycle whose event name has no entry in the
    binding table is, once the loop reaches it, logged and notified and
    nothing else: no action is dispatched for it and it raises nothing, so
    that the loop goes on with the edges after it, and the pass posts the
    notification of the edge exactly once.  The loop reaches the edge when
    the edges before it in the cycle were handled without an exception;
    when one of them raises, the cycle ends there and the edge is never
    notified. *)
Theorem unbound_edge_notified_once_when_reached
    (KEYCODES : string -> option Z) (sk : string -> sinks)
    (table : list (string * yaml)) (p : Z) (b : Byte.byte)
    (pre post : list (string * Z * string))
    (e : string * Z * string) :
  decode_edges p (byte_value b) = ([], inr (pre ++ e :: post)) ->
  Py.dict_get table (edge_name e) = None ->
  (Py.result (handle_edges KEYCODES sk (YMap table) (byte_value b) pre)
   = inr tt ->
   dispatch_edges KEYCODES sk (YMap table) p (byte_value b)
   = (Py.trace (handle_edges KEYCODES sk (YMap table) (byte_value b) pre)
        ++ edge_line (byte_value b) e :: notification sk (byte_value b) e
        ++ Py.trace (handle_edges KEYCODES sk (YMap table) (byte_value b) post),
      Py.result (handle_edges KEYCODES sk (YMap table) (byte_value b) post))
   /\ posted (edge_name e)
        (Py.trace (iteration KEYCODES sk (YMap table) (Some p) (RData b)))
      = [payload_of (byte_value b) e])
  /\ (forall x,
         Py.result (handle_edges KEYCODES sk (YMap table) (byte_value b) pre)
         = inl x ->
         dispatch_edges KEYCODES sk (YMap table) p (byte_value b)
         = (Py.trace (handle_edges KEYCODES sk (YMap table) (byte_value b) pre),
            inl x)
         /\ posted (edge_name e)
              (Py.trace (iteration KEYCODES sk (YMap table) (Some p) (RData b)))
            = []).
Proof.
  intros Hd Hfree.
  assert (Hne : byte_value b <> p).
  { apply (decoded_edges_changed p (byte_value b) _ Hd).
    destruct pre; discriminate. }
  assert (Hpre : posted (edge_name e)
                   (Py.trace (handle_edges KEYCODES sk (YMap table)
                                (byte_value b) pre)) = []).
  { apply posted_other_edges. intros e' He'.
    apply (other_edges_other_names p (byte_value b) pre post e e' Hd).
    apply in_or_app. left. exact He'. }
  assert (Hpost : posted (edge_name e)
                    (Py.trace (handle_edges KEYCODES sk (YMap table)
                                 (byte_value b) post)) = []).
  { apply posted_other_edges. intros e' He'.
    apply (other_edges_other_names p (byte_value b) pre post e e' Hd).
    apply in_or_app. right. exact He'. }
  rewrite (iteration_posts KEYCODES sk (YMap table) (byte_value b)
             (edge_name e) p b Hne eq_refl).
  rewrite (dispatch_edges_decoded KEYCODES sk (YMap table) (byte_value b) p
             _ Hd).
  rewrite handle_edges_app, handle_edges_cons.
  rewrite (handle_edge_unbound KEYCODES sk table (byte_value b) e Hfree).
  split.
  - intros Hok. rewrite (bind_succeeds _ _ tt Hok), bind_value.
    cbn [Py.trace Py.result fst snd].
    split; [reflexivity|].
    change (edge_line (byte_value b) e :: notification sk (byte_value b) e)
      with ([edge_line (byte_value b) e]
              ++ [note_of (byte_value b) e]
              ++ post_warning (sk (edge_name e))).
    rewrite !posted_app, Hpre, Hpost, posted_warning.
    cbn. rewrite String.eqb_refl. reflexivity.
  - intros x Hx. rewrite (bind_fails _ _ x Hx).
    split; [reflexivity|exact Hpre].
Qed.

Lemma unbound_edge_notified_once_when_reached_witness :
  (decode_edges 0 (byte_value Byte.x81)
   = ([], inr ([("mute_on", BIT_MUTE, "on")] ++ ("all_on", BIT_ALL, "on") :: []))
   /\ Py.dict_get [("mute_on", true_command)] "all_on" = None
   /\ Py.result (handle_edges sample_KEYCODES (everywhere (failing_post true))
                   (YMap [("mute_on", true_command)]) (byte_value Byte.x81)
                   [("mute_on", BIT_MUTE, "on")]) = inr tt
   /\ dispatch_edges sample_KEYCODES (everywhere (failing_post true))
        (YMap [("mute_on", true_command)]) 0 (byte_value Byte.x81)
      = ([Print "[GV] mute_on       . state 0x81 [mute, all]";
          Post {| pl_event := "mute_on"; pl_edge := "on"; pl_mask_hex := "81";
                  pl_mask_int := 129; pl_active := ["mute"; "all"] |};
          Print "[GV] WARN: Node-RED POST failed: connection refused";
          Popen (YStr "true");
          Print "[GV] all_on        . state 0x81 [mute, all]";
          Post {| pl_event := "all_on"; pl_edge := "on"; pl_mask_hex := "81";
                  pl_mask_int := 129; pl_active := ["mute"; "all"] |};
          Print "[GV] WARN: Node-RED POST failed: connection refused"],
         inr tt)
   /\ posted "all_on"
        (Py.trace (iteration sample_KEYCODES (everywhere (failing_post true))
                     (YMap [("mute_on", true_command)]) (Some 0)
                     (RData Byte.x81)))
      = [{| pl_event := "all_on"; pl_edge := "on"; pl_mask_hex := "81";
            pl_mask_int := 129; pl_active := ["mute"; "all"] |}])
  /\ (Py.dict_get [("mute_on", bad_combo)] "all_on" = None
      /\ Py.result (handle_edges sample_KEYCODES (everywhere quiet_sinks)
                      bad_combo_bindings (byte_value Byte.x81)
                      [("mute_on", BIT_MUTE, "on")])
         = inl (KeyError (YStr "NOT_A_KEY"))
      /\ posted "all_on"
           (Py.trace (iteration sample_KEYCODES (everywhere quiet_sinks)
                        bad_combo_bindings (Some 0) (RData Byte.x81)))
         = []).
Proof.
  split.
  - destruct (unbound_edge_notified_once_when_reached sample_KEYCODES
                (everywhere (failing_post true)) [("mute_on", true_command)] 0 Byte.x81
                [("mute_on", BIT_MUTE, "on")] [] ("all_on", BIT_ALL, "on")
                eq_refl eq_refl) as [Hreached _].
    destruct (Hreached eq_refl) as [Hcycle Hposted].
    split; [reflexivity|]. split; [reflexivity|]. split; [reflexivity|].
    split; [exact Hcycle|exact Hposted].
  - destruct (unbound_edge_notified_once_when_reached sample_KEYCODES
                (everywhere quiet_sinks) [("mute_on", bad_combo)] 0 Byte.x81
                [("mute_on", BIT_MUTE, "on")] [] ("all_on", BIT_ALL, "on")
                eq_refl eq_refl) as [_ Hcut].
    destruct (Hcut (KeyError (YStr "NOT_A_KEY")) eq_refl) as [_ Hposted].
    split; [reflexivity|]. split; [reflexivity|exact Hposted].
Defined.

(** C6 as stated fails for an unbound edge that follows, in the same
    cycle, an edge whose dispatch raises: from 0x00 to 0x81 with mute_on
    bound to a combination with an unknown key, the all_on edge has no
    entry in the table, and the daemon ends without having logged or
    notified it. *)
Lemma unbound_edge_after_failure_is_not_notified :
  decode_edges 0x00 0x81
  = ([], inr [("mute_on", BIT_MUTE, "on"); ("all_on", BIT_ALL, "on")])
  /\ Py.dict_get [("mute_on", bad_combo)] "all_on" = None
  /\ main sample_KEYCODES
       (sample_world (Doc (YMap [("bindings", bad_combo_bindings)])))
       [Tick (RData Byte.x00); Tick (RData Byte.x81); Tick (RData Byte.x00)]
     = ([Print "[GV] Using /dev/hidraw0"; UiOpen; FdOpen "/dev/hidraw0";
         Print "[GV] Daemon running. Press buttons; readable diagnostics below. Ctrl+C to exit.";
         OsRead (RData Byte.x00); Print "[GV] INIT state = 0x00 [none]";
         OsRead (RData Byte.x81);
         Print "[GV] mute_on       . state 0x81 [mute, all]";
         Post {| pl_event := "mute_on"; pl_edge := "on"; pl_mask_hex := "81";
                 pl_mask_int := 129; pl_active := ["mute"; "all"] |};
         UiClose; FdClose],
        inl (KeyError (YStr "NOT_A_KEY")))
  /\ posted "all_on"
       (Py.trace
          (main sample_KEYCODES
             (sample_world (Doc (YMap [("bindings", bad_combo_bindings)])))
             [Tick (RData Byte.x00); Tick (RData Byte.x81);
              Tick (RData Byte.x00)]))
     = [].
Proof. repeat split. Qed.

(** * Further properties of the code *)

(** ** Edges as a difference of masks *)

Lemma land_pow2_value (x i : Z) :
  0 <= i -> Z.land x (2 ^ i) = if Z.testbit x i then 2 ^ i else 0.
Proof.
  intros Hi. apply Z.bits_inj'. intros n Hn.
  rewrite Z.land_spec, Z.pow2_bits_eqb by lia.
  destruct (Z.eqb_spec i n) as [->|Hne].
  - destruct (Z.testbit x n) eqn:Hb.
    + rewrite Z.pow2_bits_true by lia. reflexivity.
    + rewrite Z.bits_0. reflexivity.
  - rewrite andb_false_r.
    destruct (Z.testbit x i).
    + rewrite Z.pow2_bits_false by lia. reflexivity.
    + rewrite Z.bits_0. reflexivity.
Qed.

Lemma changed_flag_value (p c bit : Z) :
  In bit PRINT_ORDER ->
  (if differs p c bit then bit else 0) = Z.land (Z.lxor p c) bit.
Proof.
  intros H. destruct (PRINT_ORDER_pow2 bit H) as [E Hi].
  rewrite E at 2 3. rewrite land_pow2_value by exact Hi.
  unfold differs. rewrite Z.lxor_spec. rewrite <- E.
  destruct (xorb _ _); reflexivity.
Qed.

Lemma fold_xor_filter (f : Z -> bool) (l : list Z) :
  forall a,
    fold_left Z.lxor (filter f l) a
    = fold_left Z.lxor (map (fun b => if f b then b else 0) l) a.
Proof.
  induction l as [|b l IH]; intros a; [reflexivity|].
  cbn [filter map fold_left]. destruct (f b); cbn [fold_left].
  - apply IH.
  - rewrite Z.lxor_0_r. apply IH.
Qed.

Lemma constant_bit_above (a n : Z) :
  0 <= a < 256 -> 8 <= n -> Z.testbit a n = false.
Proof.
  intros Ha Hn.
  destruct (Z.eq_dec a 0) as [->|Hnz]; [apply Z.bits_0|].
  apply Z.bits_above_log2; [lia|].
  assert (Z.log2 a < 8)
    by (apply Z.log2_lt_pow2; [lia|change (2 ^ 8) with 256; lia]).
  lia.
Qed.

Lemma xor_of_flags (x a : Z) :
  fold_left Z.lxor (map (Z.land x) PRINT_ORDER) a
  = Z.lxor a (Z.land x 255).
Proof.
  unfold PRINT_ORDER, BIT_MUTE, BIT_CMD, BIT_ALL, BIT_TEAM, BIT_CH1, BIT_CH2,
    BIT_CH3, BIT_CH4.
  cbn [map fold_left].
  apply Z.bits_inj'. intros n Hn.
  rewrite !Z.lxor_spec, !Z.land_spec.
  destruct (Z_lt_le_dec n 8) as [Hlt|Hge].
  - assert (Hcase : n = 0 \/ n = 1 \/ n = 2 \/ n = 3 \/ n = 4 \/ n = 5
                    \/ n = 6 \/ n = 7) by lia.
    destruct (Z.testbit a n), (Z.testbit x n);
      repeat (destruct Hcase as [->|Hcase]; [reflexivity|]);
      subst n; reflexivity.
  - rewrite (constant_bit_above 128 n), (constant_bit_above 64 n),
      (constant_bit_above 32 n), (constant_bit_above 16 n),
      (constant_bit_above 8 n), (constant_bit_above 4 n),
      (constant_bit_above 2 n), (constant_bit_above 1 n),
      (constant_bit_above 255 n) by lia.
    rewrite !andb_false_r. destruct (Z.testbit a n); reflexivity.
Qed.

Lemma byte_value_range (b : Byte.byte) : 0 <= byte_value b < 256.
Proof.
  unfold byte_value. assert (H := Byte.to_N_bounded b). lia.
Qed.

Lemma edge_bits_rebuild (b1 b2 : Byte.byte) :
  fold_left Z.lxor
    (map edge_bit
       (flat_map (edge_entry (byte_value b1) (byte_value b2)) PRINT_ORDER))
    (byte_value b1)
  = byte_value b2.
Proof.
  rewrite edge_bits_filter by auto.
  rewrite fold_xor_filter.
  rewrite (map_ext_in _ (Z.land (Z.lxor (byte_value b1) (byte_value b2))))
    by (intros bit Hbit; apply changed_flag_value, Hbit).
  rewrite xor_of_flags.
  assert (H1 := byte_value_range b1). assert (H2 := byte_value_range b2).
  apply Z.bits_inj'. intros n Hn.
  rewrite !Z.lxor_spec, Z.land_spec, Z.lxor_spec.
  destruct (Z_lt_le_dec n 8) as [Hlt|Hge].
  - assert (H255 : Z.testbit 255 n = true).
    { assert (Hcase : n = 0 \/ n = 1 \/ n = 2 \/ n = 3 \/ n = 4 \/ n = 5
                      \/ n = 6 \/ n = 7) by lia.
      repeat (destruct Hcase as [->|Hcase]; [reflexivity|]).
      subst n. reflexivity. }
    rewrite H255, andb_true_r.
    destruct (Z.testbit (byte_value b1) n), (Z.testbit (byte_value b2) n);
      reflexivity.
  - rewrite (constant_bit_above 255 n) by lia.
    rewrite (constant_bit_above (byte_value b1) n) by lia.
    rewrite (constant_bit_above (byte_value b2) n) by lia.
    reflexivity.
Qed.

(** X1: the edges are the difference of the two masks.  For all status
    bytes, toggling in the previous byte the bit of every edge that
    [decode_edges] returns gives the current byte. *)
Theorem decode_edges_rebuild_current (b1 b2 : Byte.byte) :
  exists edges,
    decode_edges (byte_value b1) (byte_value b2) = ([], inr edges)
    /\ fold_left Z.lxor (map edge_bit edges) (byte_value b1) = byte_value b2.
Proof.
  exists (flat_map (edge_entry (byte_value b1) (byte_value b2)) PRINT_ORDER).
  split; [apply decode_edges_flat_map|apply edge_bits_rebuild].
Qed.

Lemma changed_bytes_have_edges (b1 b2 : Byte.byte) :
  byte_value b2 <> byte_value b1 ->
  flat_map (edge_entry (byte_value b1) (byte_value b2)) PRINT_ORDER <> [].
Proof.
  intros Hne Hnil. apply Hne.
  rewrite <- (edge_bits_rebuild b1 b2), Hnil. reflexivity.
Qed.

Lemma flat_map_pointwise {A B B' C} (g : list B -> list C)
    (f1 : A -> list B) (f2 : A -> list B') (h : list B' -> list C)
    (l : list A) :
  (forall xs ys, g (xs ++ ys) = g xs ++ g ys) ->
  (forall xs ys, h (xs ++ ys) = h xs ++ h ys) ->
  g [] = [] -> h [] = [] ->
  (forall a, In a l -> g (f1 a) = h (f2 a)) ->
  g (flat_map f1 l) = h (flat_map f2 l).
Proof.
  intros Hg Hh Hg0 Hh0. induction l as [|a l IH]; intros Hf; cbn.
  - congruence.
  - rewrite Hg, Hh, Hf, IH; [reflexivity| |now left].
    intros; apply Hf; now right.
Qed.

Lemma edge_entry_swap (p c bit : Z) :
  In bit PRINT_ORDER ->
  map edge_bit (edge_entry c p bit) = map edge_bit (edge_entry p c bit)
  /\ map edge_dir (edge_entry c p bit)
     = map (fun e => flip_dir (edge_dir e)) (edge_entry p c bit).
Proof.
  intros Hbit. unfold edge_entry.
  rewrite (Z.lxor_comm c p).
  rewrite changed_flag by exact Hbit.
  destruct (PRINT_ORDER_named bit Hbit) as [base ->].
  unfold differs, edge_of. rewrite !truthy_flag by exact Hbit.
  destruct (Z.testbit p (Z.log2 bit)), (Z.testbit c (Z.log2 bit));
    split; reflexivity.
Qed.

(** X2: undoing a change gives the mirrored edges.  [decode_edges c p]
    reports the same flags in the same order as [decode_edges p c], each
    with the opposite direction. *)
Theorem decode_edges_reverse_flips_directions (p c : Z) :
  exists forth back,
    decode_edges p c = ([], inr forth)
    /\ decode_edges c p = ([], inr back)
    /\ map edge_bit back = map edge_bit forth
    /\ map edge_dir back = map (fun e => flip_dir (edge_dir e)) forth.
Proof.
  exists (flat_map (edge_entry p c) PRINT_ORDER),
         (flat_map (edge_entry c p) PRINT_ORDER).
  split; [apply decode_edges_flat_map|].
  split; [apply decode_edges_flat_map|].
  split.
  - apply (flat_map_pointwise (map edge_bit) _ _ (map edge_bit));
      try reflexivity; try (intros; apply map_app).
    intros bit Hbit. apply edge_entry_swap, Hbit.
  - apply (flat_map_pointwise (map edge_dir) _ _
             (map (fun e => flip_dir (edge_dir e))));
      try reflexivity; try (intros; apply map_app).
    intros bit Hbit. apply edge_entry_swap, Hbit.
Qed.

Lemma edge_entry_from_zero (c bit : Z) :
  In bit PRINT_ORDER ->
  edge_entry 0 c bit
  = map (fun n => ((n ++ "_on")%string, bit, "on")) (active_entry c bit).
Proof.
  intros Hbit. unfold edge_entry, active_entry, edge_of.
  rewrite Z.lxor_0_l.
  destruct (PRINT_ORDER_named bit Hbit) as [base ->].
  destruct (Py.truthy_int (Z.land c bit)); reflexivity.
Qed.

Lemma edge_entry_to_zero (c bit : Z) :
  In bit PRINT_ORDER ->
  edge_entry c 0 bit
  = map (fun n => ((n ++ "_off")%string, bit, "off")) (active_entry c bit).
Proof.
  intros Hbit. unfold edge_entry, active_entry, edge_of.
  rewrite Z.lxor_0_r, Z.land_0_l.
  destruct (PRINT_ORDER_named bit Hbit) as [base ->].
  destruct (Py.truthy_int (Z.land c bit)); reflexivity.
Qed.

(** X3: the active set of a mask is what switches on from the empty mask
    and off towards it.  The event names of [decode_edges 0 c] are the
    names of [active_set c], in the same order, with "_on" appended, and
    those of [decode_edges c 0] are the same names with "_off". *)
Theorem active_set_is_edges_from_zero (c : Z) :
  exists names on off,
    active_set c = ([], inr names)
    /\ decode_edges 0 c = ([], inr on)
    /\ decode_edges c 0 = ([], inr off)
    /\ map edge_name on = map (fun n => (n ++ "_on")%string) names
    /\ map edge_name off = map (fun n => (n ++ "_off")%string) names
    /\ Forall (fun e => edge_dir e = "on") on
    /\ Forall (fun e => edge_dir e = "off") off.
Proof.
  exists (flat_map (active_entry c) PRINT_ORDER),
         (flat_map (edge_entry 0 c) PRINT_ORDER),
         (flat_map (edge_entry c 0) PRINT_ORDER).
  split; [apply active_set_total|].
  split; [apply decode_edges_flat_map|].
  split; [apply decode_edges_flat_map|].
  split; [|split; [|split]].
  - apply (flat_map_pointwise (map edge_name) _ _
             (map (fun n => (n ++ "_on")%string)));
      try reflexivity; try (intros; apply map_app).
    intros bit Hbit. rewrite edge_entry_from_zero by exact Hbit.
    rewrite map_map. reflexivity.
  - apply (flat_map_pointwise (map edge_name) _ _
             (map (fun n => (n ++ "_off")%string)));
      try reflexivity; try (intros; apply map_app).
    intros bit Hbit. rewrite edge_entry_to_zero by exact Hbit.
    rewrite map_map. reflexivity.
  - rewrite Forall_forall. intros e He.
    apply in_flat_map in He. destruct He as [bit [Hbit He]].
    rewrite edge_entry_from_zero in He by exact Hbit.
    apply in_map_iff in He. destruct He as [n [<- _]]. reflexivity.
  - rewrite Forall_forall. intros e He.
    apply in_flat_map in He. destruct He as [bit [Hbit He]].
    rewrite edge_entry_to_zero in He by exact Hbit.
    apply in_map_iff in He. destruct He as [n [<- _]]. reflexivity.
Qed.

(** X4: [decode_edges0] reports the aggregate mask even when nothing
    changed: for equal masks it prints its empty line and returns the
    single ("mask_xx", "state") entry. *)
Theorem decode_edges0_unchanged_mask (c : Z) :
  decode_edges0 c c
  = ([Print ""], inr [(("mask_" ++ Py.format_02x c)%string, "state")]).
Proof.
  unfold decode_edges0. rewrite decode0_loop.
  assert (Hnil : forall names, flat_map (edge_entry0 c c) names = []).
  { induction names as [|item names IH]; [reflexivity|].
    cbn [flat_map]. rewrite IH, app_nil_r. unfold edge_entry0.
    rewrite Z.lxor_nilpotent. reflexivity. }
  rewrite Hnil. reflexivity.
Qed.

(** ** Formatting a status byte *)

(** X5: the hexadecimal form of a status byte has exactly two digits and
    reads back as the byte. *)
Theorem format_02x_byte_round_trip (b : Byte.byte) :
  String.length (Py.format_02x (byte_value b)) = 2%nat
  /\ HexString.Raw.to_N (Py.format_02x (byte_value b)) 0 = Byte.to_N b.
Proof. destruct b; split; vm_compute; reflexivity. Qed.

(** X6: among the status bytes, only 0x00 has an empty active set, and so
    only 0x00 is shown as "[none]". *)
Theorem active_set_empty_only_for_zero (b : Byte.byte) :
  (active_set (byte_value b) = ([], inr []) <-> b = Byte.x00)
  /\ (fmt_mask (byte_value b) = ([], inr "0x00 [none]") <-> b = Byte.x00).
Proof.
  destruct b; split; split; intros H;
    solve [reflexivity | discriminate H | vm_compute in H; discriminate H].
Qed.

(** ** Notifications of a cycle *)

Section Notifications.

Variable KEYCODES : string -> option Z.
Variable sk : string -> sinks.
Variable bindings : yaml.
Variable curr : Z.



End Notifications.

Section Actions.

Variable KEYCODES : string -> option Z.


End Actions.


(** ** What a binding may be *)

Section Bindings.

Variable KEYCODES : string -> option Z.

Lemma bound_action_value (sk : sinks) (table : list (string * yaml))
    (ev_name : string) (v : yaml) :
  Py.dict_get table ev_name = Some v ->
  (spec <- Py.get (YMap table) ev_name YNull ;;
   if Py.truthy spec then do_action KEYCODES sk spec else Py.ret tt)
  = (if Py.truthy v then do_action KEYCODES sk v else Py.ret tt).
Proof. intros H. cbn [Py.get]. rewrite H. apply bind_ret_l. Qed.

Lemma edge_line_prints (curr : Z) (e : string * Z * string) :
  exists line, edge_line curr e = Print line.
Proof. eexists. reflexivity. Qed.

(** X8: an edge bound to a key combination is logged, then notified, then
    dispatched: its turn of the loop body emits the log line, the
    notification of the edge (followed by the warning of
    [emit_to_nodered] when the delivery raised), the presses in listed
    order, the releases in reverse order and the synchronize call, and
    nothing else. *)
Theorem bound_combo_edge_log_notify_dispatch (sk : string -> sinks)
    (table spec : list (string * yaml)) (ks : list string) (curr : Z)
    (e : string * Z * string) :
  Py.dict_get table (edge_name e) = Some (YMap spec) ->
  (Py.dict_get spec "type" = None
   \/ Py.dict_get spec "type" = Some (YStr "key")) ->
  Py.dict_get spec "keys" = Some (YSeq (map YStr ks)) ->
  Forall (known_key KEYCODES) ks ->
  handle_edge KEYCODES sk (YMap table) curr e
  = (edge_line curr e :: notification sk curr e
       ++ map (press KEYCODES) ks ++ map (unpress KEYCODES) (rev ks)
       ++ [UiSyn],
     inr tt)
  /\ (post_error (sk (edge_name e)) = None ->
      notification sk curr e = [note_of curr e])
  /\ (forall msg,
         post_error (sk (edge_name e)) = Some msg ->
         notification sk curr e
         = [note_of curr e;
            Print ((if have_requests (sk (edge_name e))
                    then "[GV] WARN: Node-RED POST failed: "
                    else "[GV] WARN: curl POST failed: ") ++ msg)%string]).
Proof.
  intros Hbound Htype Hkeys Hknown. split; [|split].
  - rewrite handle_edge_split.
    rewrite (bound_action_value (sk (edge_name e)) table (edge_name e)
               (YMap spec) Hbound).
    assert (Htruthy : Py.truthy (YMap spec) = true)
      by (destruct spec; [discriminate Hkeys|reflexivity]).
    rewrite Htruthy, do_action_key by exact Htype.
    cbn [Py.getitem]. rewrite Hkeys, bind_ret_l.
    rewrite press_combo_known by exact Hknown. reflexivity.
  - intros Hok. unfold notification, post_warning. rewrite Hok. reflexivity.
  - intros msg Hmsg. unfold notification, post_warning. rewrite Hmsg.
    reflexivity.
Qed.

(** X9: a binding whose value is false in Python ([null], an empty
    mapping, an empty list or string, 0, false) counts as no binding: the
    edge is logged and notified, nothing is dispatched and nothing is
    raised. *)
Theorem falsy_binding_is_no_binding (sk : string -> sinks)
    (table : list (string * yaml)) (v : yaml) (curr : Z)
    (e : string * Z * string) :
  Py.dict_get table (edge_name e) = Some v ->
  Py.truthy v = false ->
  exists line,
    handle_edge KEYCODES sk (YMap table) curr e
    = (Print line :: notification sk curr e, inr tt).
Proof.
  intros Hbound Hfalse.
  exists ("[GV] " ++ Py.ljust 12 (edge_name e)
            ++ "  . state " ++ state_of curr)%string.
  rewrite handle_edge_split.
  rewrite (bound_action_value (sk (edge_name e)) table (edge_name e) v
             Hbound), Hfalse.
  cbn [Py.ret Py.trace Py.result fst snd]. rewrite app_nil_r. reflexivity.
Qed.

Lemma do_action_not_a_mapping (sk : sinks) (v : yaml) :
  (forall m, v <> YMap m) ->
  do_action KEYCODES sk v = ([], inl AttributeError).
Proof.
  intros Hv. destruct v; try reflexivity. destruct (Hv m eq_refl).
Qed.

(** X10: a binding whose value is true in Python but is not a mapping (a
    string such as a key name, a number, a list) is not rejected when the
    file is loaded; its edge is logged and notified, and then [do_action]
    raises AttributeError. *)
Theorem scalar_binding_raises_after_notifying (sk : string -> sinks)
    (table : list (string * yaml)) (v : yaml) (curr : Z)
    (e : string * Z * string) :
  Py.dict_get table (edge_name e) = Some v ->
  Py.truthy v = true ->
  (forall m, v <> YMap m) ->
  load_map (Doc (YMap [("bindings", YMap table)])) = ([], inr (YMap table))
  /\ exists line,
      handle_edge KEYCODES sk (YMap table) curr e
      = (Print line :: notification sk curr e, inl AttributeError).
Proof.
  intros Hbound Htrue Hv. split; [reflexivity|].
  exists ("[GV] " ++ Py.ljust 12 (edge_name e)
            ++ "  . state " ++ state_of curr)%string.
  rewrite handle_edge_split.
  rewrite (bound_action_value (sk (edge_name e)) table (edge_name e) v
             Hbound), Htrue.
  rewrite (do_action_not_a_mapping (sk (edge_name e)) v Hv).
  cbn [Py.trace Py.result fst snd]. rewrite app_nil_r. reflexivity.
Qed.

(** X11: a 'bindings' entry that is not a mapping (for instance an empty
    [bindings:] line, which loads as null) passes [load_map]; the first
    byte is still taken as baseline, and the first edge is logged and
    notified before the lookup of its binding raises AttributeError, which
    ends the loop. *)
Theorem bindings_not_a_mapping_fail_at_first_edge (sks : nat -> string -> sinks)
    (bindings : yaml) (b0 b : Byte.byte) (ticks : list tick) :
  (forall m, bindings <> YMap m) ->
  byte_value b <> byte_value b0 ->
  load_map (Doc (YMap [("bindings", bindings)])) = ([], inr bindings)
  /\ Py.result (iteration KEYCODES (sks O) bindings None (RData b0))
     = inr (Some (byte_value b0))
  /\ (forall sk curr e, exists line,
         handle_edge KEYCODES sk bindings curr e
         = (Print line :: notification sk curr e, inl AttributeError))
  /\ Py.result (poll_loop KEYCODES sks bindings None
                  (Tick (RData b0) :: Tick (RData b) :: ticks))
     = inl AttributeError.
Proof.
  intros Hb Hne.
  assert (Hedge : forall sk curr e, exists line,
             handle_edge KEYCODES sk bindings curr e
             = (Print line :: notification sk curr e, inl AttributeError)).
  { intros sk curr e.
    exists ("[GV] " ++ Py.ljust 12 (edge_name e)
              ++ "  . state " ++ state_of curr)%string.
    rewrite handle_edge_split.
    destruct bindings; try (cbn; rewrite app_nil_r; reflexivity).
    destruct (Hb m eq_refl). }
  split; [reflexivity|].
  assert (Hfirst : Py.result (iteration KEYCODES (sks O) bindings None
                                (RData b0))
                   = inr (Some (byte_value b0))).
  { unfold iteration, try_body. rewrite fmt_mask_state_of. reflexivity. }
  split; [exact Hfirst|]. split; [exact Hedge|].
  assert (Hd : Py.result (dispatch_edges KEYCODES (sks 1%nat) bindings
                            (byte_value b0) (byte_value b))
               = inl AttributeError).
  { unfold dispatch_edges. rewrite decode_edges_flat_map, bind_ret_l.
    assert (Hsome := changed_bytes_have_edges b0 b Hne).
    destruct (flat_map (edge_entry (byte_value b0) (byte_value b)) PRINT_ORDER)
      as [|e edges]; [destruct (Hsome eq_refl)|].
    unfold Py.forM_. cbn [Py.foldM].
    destruct (Hedge (sks 1%nat) (byte_value b) e) as [line ->]. reflexivity. }
  cbn [poll_loop run_tick].
  destruct (iteration KEYCODES (sks O) bindings None (RData b0)) as [tr0 r0].
  cbn [Py.result snd] in Hfirst. subst r0. rewrite bind_value.
  rewrite (iteration_dispatch_fails KEYCODES (sks 1%nat) bindings
             (byte_value b0) b AttributeError Hne Hd eq_refl).
  reflexivity.
Qed.

End Bindings.

(** ** What an action may be *)

Section ActionShapes.

Variable KEYCODES : string -> option Z.

(** X12: the 'keys' entry must be a list.  A single key name written as a
    plain string is walked character by character, so that (no key being
    named by one character) the lookup of its first character raises
    KeyError before anything is pressed; [null], a boolean or a number
    raise TypeError; and an empty list only synchronizes. *)
Theorem keys_entry_must_be_a_list :
  (forall ch rest,
      KEYCODES (String ch EmptyString) = None ->
      press_combo KEYCODES (YStr (String ch rest))
      = ([], inl (KeyError (YStr (String ch EmptyString)))))
  /\ (forall v,
         Py.iter v = ([], inl TypeError) ->
         press_combo KEYCODES v = ([], inl TypeError))
  /\ Py.iter YNull = ([], inl TypeError)
  /\ (forall b, Py.iter (YBool b) = ([], inl TypeError))
  /\ (forall z, Py.iter (YInt z) = ([], inl TypeError))
  /\ press_combo KEYCODES (YSeq []) = ([UiSyn], inr tt).
Proof.
  split; [|split; [|repeat split]].
  - intros ch rest Hch. unfold press_combo. cbn [Py.iter Py.chars map].
    rewrite bind_ret_l. unfold Py.forM_. cbn [Py.foldM].
    rewrite write_key_unknown by exact Hch. reflexivity.
  - intros v Hv. unfold press_combo. rewrite Hv. reflexivity.
Qed.


End ActionShapes.

(** ** Passes of the poll loop *)

Section Passes.

Variable KEYCODES : string -> option Z.






Lemma idle_pass (sk : string -> sinks) (bindings : yaml) (prev : option Z) (t : tick) :
  idle_tick prev t = true ->
  exists tr,
    run_tick KEYCODES sk bindings prev t = (tr, inr prev)
    /\ forallb idle_event tr = true.
Proof.
  destruct t as [[b| | |]|r n]; cbn [idle_tick]; try discriminate.
  - destruct prev as [p|]; [|discriminate]. intros Heq.
    eexists. cbn [run_tick]. unfold iteration, try_body. rewrite Heq.
    split; reflexivity.
  - intros _. eexists. split; reflexivity.
  - intros _. eexists. split; reflexivity.
Qed.

(** X14: passes that bring nothing new change nothing.  Over any run of
    passes in which the read is empty, would block, or returns the stored
    byte again, the loop keeps its previous state and does nothing but
    read and sleep: no log line, no notification, no action. *)
Theorem idle_passes_change_nothing (bindings : yaml) (prev : option Z)
    (ticks : list tick) (sks : nat -> string -> sinks) :
  forallb (idle_tick prev) ticks = true ->
  exists tr,
    poll_loop KEYCODES sks bindings prev ticks = (tr, inr prev)
    /\ forallb idle_event tr = true.
Proof.
  revert sks.
  induction ticks as [|t ticks IH]; intros sks; cbn [forallb poll_loop].
  - intros _. exists []. split; reflexivity.
  - intros H. apply andb_true_iff in H. destruct H as [Ht Hrest].
    destruct (idle_pass (sks O) bindings prev t Ht) as [tr1 [E1 H1]].
    destruct (IH (fun n => sks (S n)) Hrest) as [tr2 [E2 H2]].
    exists (tr1 ++ tr2). rewrite E1, bind_value, E2.
    split; [reflexivity|].
    rewrite forallb_app, H1, H2. reflexivity.
Qed.

(** A pass whose body raises BlockingIOError, from the read or from the
    launch of a command, ends after the sleep with the state it had. *)
Lemma blocked_pass (sk : string -> sinks) (bindings : yaml) (prev : option Z)
    (r : read_result) (tr : list event) :
  try_body KEYCODES sk bindings prev r = (tr, inl BlockingIOError) ->
  iteration KEYCODES sk bindings prev r = (tr ++ [Sleep], inr prev).
Proof.
  intros H. unfold iteration. rewrite H. cbn. rewrite ?app_nil_r.
  reflexivity.
Qed.



(** X16: what can end the loop.  An exception that leaves the poll loop
    is a KeyError, TypeError or AttributeError of a dispatch, the
    ValueError of a command with a NUL, the OSError of a failed read or of
    a failed launch, or KeyboardInterrupt.  BlockingIOError never leaves
    the loop, whether it comes from a read without data or from the
    launch of a command: the pass then ends after its sleep with the
    previous state unchanged. *)
Theorem poll_loop_exceptions (sks : nat -> string -> sinks) (bindings : yaml)
    (prev : option Z) (ticks : list tick) (e : exn) :
  Py.result (poll_loop KEYCODES sks bindings prev ticks) = inl e ->
  loop_error e = true
  /\ e <> BlockingIOError
  /\ (forall sk prev,
         iteration KEYCODES sk bindings prev RBlocking
         = ([OsRead RBlocking; Sleep], inr prev))
  /\ (forall sk prev r tr,
         try_body KEYCODES sk bindings prev r = (tr, inl BlockingIOError) ->
         iteration KEYCODES sk bindings prev r = (tr ++ [Sleep], inr prev)).
Proof.
  intros H.
  assert (He := raises_poll_loop KEYCODES bindings ticks sks prev e H).
  split; [exact He|]. split; [|split].
  - intros ->. discriminate He.
  - reflexivity.
  - intros sk prev0 r tr. apply blocked_pass.
Qed.

End Passes.

(** ** The whole run *)

Section Runs.

Variable KEYCODES : string -> option Z.

Lemma is_KeyboardInterrupt_eq (e : exn) :
  is_KeyboardInterrupt e = true -> e = KeyboardInterrupt.
Proof. destruct e; cbn; congruence. Qed.

(** X17: the exit status is 0 exactly when Ctrl+C ends the poll loop.
    [main] returns normally if and only if startup succeeded and the loop
    was left by KeyboardInterrupt; every other way out of [main] is an
    exception. *)
Theorem exit_status_0_iff_interrupted (override : option string) (w : world)
    (ticks : list tick) :
  exit_status (Py.result (main_with KEYCODES override w ticks)) = Exit 0
  <-> exists tr0 bindings tr,
      startup override w = (tr0, inr bindings)
      /\ poll_loop KEYCODES (outside w) bindings None ticks
         = (tr, inl KeyboardInterrupt).
Proof.
  split.
  - assert (Hs := raises_startup override w).
    destruct (startup override w) as [tr0 [e|bindings]] eqn:Es.
    + rewrite (main_startup_fails KEYCODES override w ticks tr0 e Es).
      cbn [Py.result snd].
      rewrite (exit_status_error e (Hs e eq_refl)). discriminate.
    + assert (Hl := raises_poll_loop KEYCODES bindings ticks (outside w) None).
      destruct (poll_loop KEYCODES (outside w) bindings None ticks)
        as [tr [e|prev]] eqn:El.
      * rewrite (main_releases_after_the_loop KEYCODES override w ticks
                   tr0 tr bindings e Es El).
        cbn [Py.result snd]. rewrite loop_error_exit by (apply (Hl e); reflexivity).
        destruct (is_KeyboardInterrupt e) eqn:Ek; [|discriminate].
        intros _. exists tr0, bindings, tr.
        apply is_KeyboardInterrupt_eq in Ek. subst e.
        split; [reflexivity|exact El].
      * rewrite (main_still_running KEYCODES override w ticks
                   tr0 tr bindings prev Es El).
        discriminate.
  - intros [tr0 [bindings [tr [Es El]]]].
    rewrite (main_releases_after_the_loop KEYCODES override w ticks
               tr0 tr bindings KeyboardInterrupt Es El).
    reflexivity.
Qed.



(** X19: Ctrl+C inside a pass is a clean exit.  When the interrupt
    arrives before the pass has finished its observable actions, the pass
    stops there, both devices are closed, and [main] returns normally. *)
Theorem interrupt_inside_a_pass_exits_cleanly
    (override : option string) (w : world) (ticks rest : list tick)
    (r : read_result) (n : nat) (tr0 trl : list event) (bindings : yaml)
    (prev : option Z) :
  startup override w = (tr0, inr bindings) ->
  poll_loop KEYCODES (outside w) bindings None ticks = (trl, inr prev) ->
  (n < List.length
         (Py.trace (iteration KEYCODES (outside w (List.length ticks))
                      bindings prev r)))%nat ->
  main_with KEYCODES override w (ticks ++ Interrupted r n :: rest)
  = (tr0 ++ (trl ++ firstn n
                      (Py.trace (iteration KEYCODES
                                   (outside w (List.length ticks))
                                   bindings prev r)))
       ++ [UiClose; FdClose],
     inr Returned).
Proof.
  intros Es El Hn.
  apply (main_releases_after_the_loop KEYCODES override w _ tr0 _ bindings
           KeyboardInterrupt Es).
  rewrite poll_loop_app, El, bind_value. cbn [poll_loop run_tick].
  rewrite Nat.add_0_r.
  unfold interrupt_after.
  destruct (iteration KEYCODES (outside w (List.length ticks)) bindings prev r)
    as [tr res].
  cbn [Py.trace fst] in *.
  apply Nat.ltb_lt in Hn. rewrite Hn. reflexivity.
Qed.

End Runs.

(** ** Instances *)

Lemma bound_combo_edge_log_notify_dispatch_witness :
  Py.dict_get [("mute_on", YMap [("keys", YSeq [YStr "KEY_LEFTCTRL"; YStr "KEY_M"])])]
    "mute_on"
  = Some (YMap [("keys", YSeq [YStr "KEY_LEFTCTRL"; YStr "KEY_M"])])
  /\ Forall (known_key sample_KEYCODES) ["KEY_LEFTCTRL"; "KEY_M"]
  /\ handle_edge sample_KEYCODES (everywhere (failing_post false))
       (YMap [("mute_on", YMap [("keys", YSeq [YStr "KEY_LEFTCTRL"; YStr "KEY_M"])])])
       0x80 ("mute_on", BIT_MUTE, "on")
     = ([Print "[GV] mute_on       . state 0x80 [mute]";
         Post {| pl_event := "mute_on"; pl_edge := "on"; pl_mask_hex := "80";
                 pl_mask_int := 128; pl_active := ["mute"] |};
         Print "[GV] WARN: curl POST failed: connection refused";
         UiWrite 29 1; UiWrite 50 1; UiWrite 50 0; UiWrite 29 0; UiSyn],
        inr tt).
Proof.
  assert (Hknown : Forall (known_key sample_KEYCODES) ["KEY_LEFTCTRL"; "KEY_M"])
    by (repeat constructor; discriminate).
  split; [reflexivity|]. split; [exact Hknown|].
  exact (proj1
           (bound_combo_edge_log_notify_dispatch sample_KEYCODES
              (everywhere (failing_post false))
              [("mute_on", YMap [("keys", YSeq [YStr "KEY_LEFTCTRL"; YStr "KEY_M"])])]
              [("keys", YSeq [YStr "KEY_LEFTCTRL"; YStr "KEY_M"])]
              ["KEY_LEFTCTRL"; "KEY_M"] 0x80 ("mute_on", BIT_MUTE, "on")
              eq_refl (or_introl eq_refl) eq_refl Hknown)).
Defined.

Lemma falsy_binding_is_no_binding_witness :
  Py.dict_get [("mute_on", YMap [])] "mute_on" = Some (YMap [])
  /\ Py.truthy (YMap []) = false
  /\ exists line,
      handle_edge sample_KEYCODES (everywhere quiet_sinks)
        (YMap [("mute_on", YMap [])]) 0x80 ("mute_on", BIT_MUTE, "on")
      = ([Print line; note_of 0x80 ("mute_on", BIT_MUTE, "on")], inr tt).
Proof.
  split; [reflexivity|]. split; [reflexivity|].
  exact (falsy_binding_is_no_binding sample_KEYCODES (everywhere quiet_sinks)
           [("mute_on", YMap [])]
           (YMap []) 0x80 ("mute_on", BIT_MUTE, "on") eq_refl eq_refl).
Defined.

Lemma scalar_binding_raises_after_notifying_witness :
  Py.dict_get [("mute_on", YStr "KEY_M")] "mute_on" = Some (YStr "KEY_M")
  /\ Py.truthy (YStr "KEY_M") = true
  /\ exists line,
      handle_edge sample_KEYCODES (everywhere quiet_sinks)
        (YMap [("mute_on", YStr "KEY_M")]) 0x80
        ("mute_on", BIT_MUTE, "on")
      = ([Print line; note_of 0x80 ("mute_on", BIT_MUTE, "on")],
         inl AttributeError).
Proof.
  split; [reflexivity|]. split; [reflexivity|].
  exact (proj2 (scalar_binding_raises_after_notifying sample_KEYCODES
                  (everywhere quiet_sinks)
                  [("mute_on", YStr "KEY_M")] (YStr "KEY_M") 0x80
                  ("mute_on", BIT_MUTE, "on") eq_refl eq_refl
                  (fun m H => match H with end))).
Defined.

Lemma bindings_not_a_mapping_fail_at_first_edge_witness :
  byte_value Byte.x80 <> byte_value Byte.x00
  /\ load_map (Doc (YMap [("bindings", YNull)])) = ([], inr YNull)
  /\ Py.result (poll_loop sample_KEYCODES (always quiet_sinks) YNull None
                  [Tick (RData Byte.x00); Tick (RData Byte.x80)])
     = inl AttributeError.
Proof.
  assert (Hne : byte_value Byte.x80 <> byte_value Byte.x00) by discriminate.
  split; [exact Hne|].
  destruct (bindings_not_a_mapping_fail_at_first_edge sample_KEYCODES
              (always quiet_sinks) YNull
              Byte.x00 Byte.x80 [] (fun m H => match H with end) Hne)
    as [Hload [_ [_ Hloop]]].
  split; [exact Hload|exact Hloop].
Defined.

Lemma keys_entry_must_be_a_list_witness :
  sample_KEYCODES "K" = None
  /\ press_combo sample_KEYCODES (YStr "KEY_A")
     = ([], inl (KeyError (YStr "K")))
  /\ press_combo sample_KEYCODES YNull = ([], inl TypeError).
Proof.
  destruct (keys_entry_must_be_a_list sample_KEYCODES)
    as [Hstr [Hiter [Hnull _]]].
  split; [reflexivity|]. split.
  - exact (Hstr "K"%char "EY_A" eq_refl).
  - exact (Hiter YNull Hnull).
Defined.


Lemma idle_passes_change_nothing_witness :
  forallb (idle_tick (Some 0x04))
    [Tick REmpty; Tick (RData Byte.x04); Tick RBlocking] = true
  /\ exists tr,
      poll_loop sample_KEYCODES (always quiet_sinks) bad_combo_bindings
        (Some 0x04)
        [Tick REmpty; Tick (RData Byte.x04); Tick RBlocking]
      = (tr, inr (Some 0x04))
      /\ forallb idle_event tr = true.
Proof.
  split; [reflexivity|].
  exact (idle_passes_change_nothing sample_KEYCODES bad_combo_bindings
           (Some 0x04) [Tick REmpty; Tick (RData Byte.x04); Tick RBlocking]
           (always quiet_sinks) eq_refl).
Defined.



Lemma poll_loop_exceptions_witness :
  (Py.result (poll_loop sample_KEYCODES (always quiet_sinks) (YMap [])
                (Some 0x04) [Tick RBlocking; Tick RError; Tick REmpty])
   = inl OSError
   /\ loop_error OSError = true
   /\ OSError <> BlockingIOError)
  /\ (try_body sample_KEYCODES (everywhere (failing_launch LaunchBlocked))
        (YMap [("chan1_on", true_command)]) (Some 0) (RData Byte.x04)
      = ([OsRead (RData Byte.x04);
          Print "[GV] chan1_on      . state 0x04 [chan1]";
          Post {| pl_event := "chan1_on"; pl_edge := "on"; pl_mask_hex := "04";
                  pl_mask_int := 4; pl_active := ["chan1"] |}],
         inl BlockingIOError)
      /\ iteration sample_KEYCODES (everywhere (failing_launch LaunchBlocked))
           (YMap [("chan1_on", true_command)]) (Some 0) (RData Byte.x04)
         = ([OsRead (RData Byte.x04);
             Print "[GV] chan1_on      . state 0x04 [chan1]";
             Post {| pl_event := "chan1_on"; pl_edge := "on";
                     pl_mask_hex := "04"; pl_mask_int := 4;
                     pl_active := ["chan1"] |}] ++ [Sleep],
            inr (Some 0))).
Proof.
  destruct (poll_loop_exceptions sample_KEYCODES (always quiet_sinks)
              (YMap [("chan1_on", true_command)]) (Some 0x04)
              [Tick RBlocking; Tick RError; Tick REmpty] OSError eq_refl)
    as [Herr [Hne [_ Hblocked]]].
  split.
  - split; [reflexivity|]. split; [exact Herr|exact Hne].
  - split; [reflexivity|].
    exact (Hblocked (everywhere (failing_launch LaunchBlocked)) (Some 0) (RData Byte.x04)
             _ eq_refl).
Defined.

Lemma exit_status_0_iff_interrupted_witness :
  (exists tr0 bindings tr,
      startup HIDRAW_OVERRIDE (sample_world (Doc (YMap [("bindings", YMap [])])))
      = (tr0, inr bindings)
      /\ poll_loop sample_KEYCODES
           (outside (sample_world (Doc (YMap [("bindings", YMap [])]))))
           bindings None
           [Tick (RData Byte.x00); Interrupted RBlocking 1]
         = (tr, inl KeyboardInterrupt))
  /\ exit_status
       (Py.result
          (main_with sample_KEYCODES HIDRAW_OVERRIDE
             (sample_world (Doc (YMap [("bindings", YMap [])])))
             [Tick (RData Byte.x00); Interrupted RBlocking 1]))
     = Exit 0.
Proof.
  assert (H : exists tr0 bindings tr,
             startup HIDRAW_OVERRIDE
               (sample_world (Doc (YMap [("bindings", YMap [])])))
             = (tr0, inr bindings)
             /\ poll_loop sample_KEYCODES
                  (outside (sample_world (Doc (YMap [("bindings", YMap [])]))))
                  bindings None
                  [Tick (RData Byte.x00); Interrupted RBlocking 1]
                = (tr, inl KeyboardInterrupt))
    by (do 3 eexists; split; reflexivity).
  split; [exact H|].
  exact (proj2 (exit_status_0_iff_interrupted sample_KEYCODES HIDRAW_OVERRIDE
                  (sample_world (Doc (YMap [("bindings", YMap [])])))
                  [Tick (RData Byte.x00); Interrupted RBlocking 1]) H).
Defined.

Lemma interrupt_inside_a_pass_exits_cleanly_witness :
  (2 < List.length
         (Py.trace (iteration sample_KEYCODES (everywhere quiet_sinks)
                      (YMap []) (Some 0%Z) (RData Byte.x81))))%nat
  /\ main_with sample_KEYCODES HIDRAW_OVERRIDE
       (sample_world (Doc (YMap [("bindings", YMap [])])))
       ([Tick (RData Byte.x00)] ++ Interrupted (RData Byte.x81) 2 :: [Tick REmpty])
     = ([Print "[GV] Using /dev/hidraw0"; UiOpen; FdOpen "/dev/hidraw0";
         Print "[GV] Daemon running. Press buttons; readable diagnostics below. Ctrl+C to exit.";
         OsRead (RData Byte.x00); Print "[GV] INIT state = 0x00 [none]";
         OsRead (RData Byte.x81);
         Print "[GV] mute_on       . state 0x81 [mute, all]";
         UiClose; FdClose],
        inr Returned).
Proof.
  assert (Hn : (2 < List.length
                      (Py.trace (iteration sample_KEYCODES
                                   (everywhere quiet_sinks) (YMap [])
                                   (Some 0%Z) (RData Byte.x81))))%nat)
    by (vm_compute; repeat constructor).
  split; [exact Hn|].
  exact (interrupt_inside_a_pass_exits_cleanly sample_KEYCODES HIDRAW_OVERRIDE
           (sample_world (Doc (YMap [("bindings", YMap [])])))
           [Tick (RData Byte.x00)] [Tick REmpty] (RData Byte.x81) 2
           [Print "[GV] Using /dev/hidraw0"; UiOpen; FdOpen "/dev/hidraw0";
            Print "[GV] Daemon running. Press buttons; readable diagnostics below. Ctrl+C to exit."]
           [OsRead (RData Byte.x00); Print "[GV] INIT state = 0x00 [none]"]
           (YMap []) (Some 0x00) eq_refl eq_refl Hn).
Defined.

(** * Device discovery *)

(** ** Strings *)

Lemma str_app_nil_r (s : string) : (s ++ "")%string = s.
Proof. induction s as [|c s IH]; cbn; [reflexivity|]. rewrite IH. reflexivity. Qed.

Lemma str_app_assoc (a b c : string) :
  ((a ++ b) ++ c)%string = (a ++ b ++ c)%string.
Proof. induction a as [|x a IH]; cbn; [reflexivity|]. rewrite IH. reflexivity. Qed.

Lemma str_length_app (a b : string) :
  String.length (a ++ b) = (String.length a + String.length b)%nat.
Proof. induction a as [|x a IH]; cbn; [reflexivity|]. rewrite IH. reflexivity. Qed.

Lemma all_chars_app (class : ascii -> bool) (a b : string) :
  all_chars class (a ++ b) = all_chars class a && all_chars class b.
Proof.
  induction a as [|x a IH]; cbn; [reflexivity|].
  rewrite IH, andb_assoc. reflexivity.
Qed.

(** ** The pattern *)

Lemma greedy_result {R} (class : ascii -> bool) (lo : nat) (hi : option nat)
    (k : string -> string -> option R) (s : string) :
  forall taken n r,
    Re.greedy class lo hi taken n s k = Some r ->
    exists more rest,
      s = (more ++ rest)%string
      /\ all_chars class more = true
      /\ (lo <= n + String.length more)%nat
      /\ (forall h, hi = Some h -> (n + String.length more <= Nat.max n h)%nat)
      /\ k (taken ++ more)%string rest = Some r.
Proof.
  induction s as [|c s IH]; intros taken n r; cbn [Re.greedy].
  - destruct (Nat.leb_spec lo n) as [Hlo|_]; [|discriminate].
    intros Hk. exists EmptyString, EmptyString. cbn [String.length].
    rewrite Nat.add_0_r. repeat split; try assumption.
    + intros h _. lia.
    + rewrite str_app_nil_r. exact Hk.
  - assert (Hstop : (if (lo <=? n)%nat then k taken (String c s) else None)
                    = Some r ->
                    exists more rest,
                      String c s = (more ++ rest)%string
                      /\ all_chars class more = true
                      /\ (lo <= n + String.length more)%nat
                      /\ (forall h, hi = Some h ->
                                    (n + String.length more <= Nat.max n h)%nat)
                      /\ k (taken ++ more)%string rest = Some r).
    { destruct (Nat.leb_spec lo n) as [Hlo|_]; [|discriminate].
      intros Hk. exists EmptyString, (String c s). cbn [String.length].
      rewrite Nat.add_0_r. repeat split; try assumption.
      - intros h _. lia.
      - rewrite str_app_nil_r. exact Hk. }
    destruct (class c) eqn:Hc; cbn [andb]; [|exact Hstop].
    destruct (Re.below hi n) eqn:Hb; [|exact Hstop].
    destruct (Re.greedy class lo hi (taken ++ String c EmptyString)%string
                (S n) s k) as [r'|] eqn:Hdeep; [|exact Hstop].
    intros Hr. injection Hr as ->.
    destruct (IH _ _ _ Hdeep) as [more [rest [-> [Hall [Hlen [Hhi Hk]]]]]].
    exists (String c more), rest. cbn [String.length all_chars].
    rewrite Hc, Hall. repeat split.
    + lia.
    + intros h Hh. specialize (Hhi h Hh). subst hi. cbn in Hb.
      apply Nat.ltb_lt in Hb. lia.
    + rewrite <- Hk. f_equal. rewrite str_app_assoc. reflexivity.
Qed.

Lemma search_result (r : list Re.atom) (s : string) (groups : list string) :
  Re.search r s = Some groups ->
  exists before rest,
    s = (before ++ rest)%string /\ Re.match_here r rest [] = Some groups.
Proof.
  induction s as [|c s IH]; cbn [Re.search].
  - destruct (Re.match_here r "" []) as [g|] eqn:Hm; [|discriminate].
    intros H. injection H as ->. exists EmptyString, EmptyString.
    split; [reflexivity|exact Hm].
  - destruct (Re.match_here r (String c s) []) as [g|] eqn:Hm.
    + intros H. injection H as ->. exists EmptyString, (String c s).
      split; [reflexivity|exact Hm].
    + intros H. destruct (IH H) as [before [rest [-> Hrest]]].
      exists (String c before), rest. split; [reflexivity|exact Hrest].
Qed.

Lemma HID_ID_match_groups (s : string) (groups : list string) :
  Re.match_here HID_ID_pattern s [] = Some groups ->
  exists g1 g2, groups = [g1; g2] /\ hex_id g1 = true /\ hex_id g2 = true.
Proof.
  unfold HID_ID_pattern. cbn [Re.match_here].
  destruct (Text.strip_prefix "HID_ID=" s) as [s1|]; [|discriminate].
  intros H. apply greedy_result in H.
  destruct H as [bus [s2 [_ [_ [_ [_ H]]]]]].
  destruct (Text.strip_prefix ":" s2) as [s3|]; [|discriminate].
  apply greedy_result in H.
  destruct H as [g1 [s4 [_ [Hhex1 [Hlo1 [Hhi1 H]]]]]].
  destruct (Text.strip_prefix ":" s4) as [s5|]; [|discriminate].
  apply greedy_result in H.
  destruct H as [g2 [s6 [_ [Hhex2 [Hlo2 [Hhi2 H]]]]]].
  injection H as <-.
  specialize (Hhi1 8%nat eq_refl). specialize (Hhi2 8%nat eq_refl).
  exists g1, g2. cbn [app String.append]. split; [reflexivity|].
  unfold hex_id. rewrite Hhex1, Hhex2. cbn [andb].
  split; apply andb_true_iff; split;
    first [apply Nat.leb_le; lia].
Qed.

(** X20: what the pattern captures.  Whenever the search for a HID_ID
    succeeds, it yields exactly two groups, each made of four to eight
    hexadecimal digits. *)
Theorem HID_ID_groups_are_hex_ids (txt : string) (groups : list string) :
  Re.search HID_ID_pattern txt = Some groups ->
  exists g1 g2, groups = [g1; g2] /\ hex_id g1 = true /\ hex_id g2 = true.
Proof.
  intros H. destruct (search_result _ _ _ H) as [before [rest [_ Hm]]].
  exact (HID_ID_match_groups rest groups Hm).
Qed.

Lemma greedy_descend {R} (class : ascii -> bool) (lo : nat)
    (k : string -> string -> option R) (a : string) :
  forall hi taken n s r,
    all_chars class a = true ->
    (forall h, hi = Some h -> (n + String.length a <= h)%nat) ->
    Re.greedy class lo hi (taken ++ a)%string (n + String.length a) s k
    = Some r ->
    Re.greedy class lo hi taken n (a ++ s)%string k = Some r.
Proof.
  induction a as [|c a IH]; intros hi taken n s r Hall Hhi; cbn [String.length].
  - rewrite str_app_nil_r, Nat.add_0_r. exact (fun H => H).
  - cbn [all_chars] in Hall. apply andb_true_iff in Hall.
    destruct Hall as [Hc Ha]. intros Hdeep.
    cbn [String.append Re.greedy]. rewrite Hc.
    assert (Hb : Re.below hi n = true).
    { destruct hi as [h|]; [|reflexivity]. cbn.
      apply Nat.ltb_lt. specialize (Hhi h eq_refl). cbn in Hhi. lia. }
    rewrite Hb. cbn [andb].
    rewrite (IH hi (taken ++ String c EmptyString)%string (S n) s r Ha).
    + reflexivity.
    + intros h Hh. specialize (Hhi h Hh). cbn in Hhi. lia.
    + rewrite str_app_assoc. cbn [String.append].
      replace (S n + String.length a)%nat with (n + S (String.length a))%nat
        by lia.
      exact Hdeep.
Qed.

Lemma greedy_stops {R} (class : ascii -> bool) (lo : nat) (hi : option nat)
    (taken : string) (n : nat) (s : string)
    (k : string -> string -> option R) :
  stops class s = true ->
  Re.greedy class lo hi taken n s k
  = if (lo <=? n)%nat then k taken s else None.
Proof.
  destruct s as [|c s]; [reflexivity|].
  cbn [stops Re.greedy]. intros Hc. apply negb_true_iff in Hc.
  rewrite Hc. reflexivity.
Qed.

(** A repetition that finds no continuation at any later point falls back
    to the point where it started. *)
Lemma greedy_falls_back {R} (class : ascii -> bool) (lo : nat)
    (hi : option nat) (k : string -> string -> option R) (x s : string) :
  stops class s = true ->
  forall taken n,
    (forall x1 c x2 t, x = (x1 ++ String c x2)%string ->
                       k t (x2 ++ s)%string = None) ->
    Re.greedy class lo hi taken n (x ++ s)%string k
    = if (lo <=? n)%nat then k taken (x ++ s)%string else None.
Proof.
  intros Hs. induction x as [|c x IH]; intros taken n Hfail.
  - apply greedy_stops, Hs.
  - cbn [String.append Re.greedy].
    destruct (class c && Re.below hi n); [|reflexivity].
    rewrite IH.
    + rewrite (Hfail EmptyString c x _ eq_refl).
      destruct (lo <=? S n)%nat; reflexivity.
    + intros x1 c' x2 t Hx. apply (Hfail (String c x1) c' x2 t).
      cbn. rewrite Hx. reflexivity.
Qed.

Lemma hex_is_not_colon (c : ascii) :
  Re.is_hex c = true -> Ascii.eqb c ":" = false.
Proof.
  intros H. destruct (Ascii.eqb_spec c ":") as [->|_]; [|reflexivity].
  discriminate H.
Qed.

Lemma space_is_not_colon (c : ascii) :
  Re.is_space c = true -> Ascii.eqb c ":" = false.
Proof.
  intros H. destruct (Ascii.eqb_spec c ":") as [->|_]; [|reflexivity].
  discriminate H.
Qed.

Lemma space_is_not_hex (c : ascii) :
  Re.is_space c = true -> Re.is_hex c = false.
Proof.
  destruct c as [[] [] [] [] [] [] [] []]; vm_compute; congruence.
Qed.

Lemma strip_colon_fails (z : string) :
  no_colon_start z = true -> Text.strip_prefix ":" z = None.
Proof.
  destruct z as [|c z]; [reflexivity|]. cbn [no_colon_start Text.strip_prefix].
  intros H. apply negb_true_iff in H.
  rewrite Ascii.eqb_sym, H. reflexivity.
Qed.

Lemma stops_non_space_no_colon (rest : string) :
  stops Re.non_space rest = true -> no_colon_start rest = true.
Proof.
  destruct rest as [|c rest]; [reflexivity|].
  cbn [stops no_colon_start]. unfold Re.non_space. rewrite negb_involutive.
  intros H. rewrite (space_is_not_colon c H). reflexivity.
Qed.

Lemma stops_non_space_hex (rest : string) :
  stops Re.non_space rest = true -> stops Re.is_hex rest = true.
Proof.
  destruct rest as [|c rest]; [reflexivity|].
  cbn [stops]. unfold Re.non_space. rewrite negb_involutive.
  intros H. rewrite (space_is_not_hex c H). reflexivity.
Qed.

Lemma hex_suffix_no_colon (p rest x1 x2 : string) :
  all_chars Re.is_hex p = true ->
  no_colon_start rest = true ->
  p = (x1 ++ x2)%string ->
  no_colon_start (x2 ++ rest) = true.
Proof.
  intros Hp Hrest ->. rewrite all_chars_app in Hp.
  apply andb_true_iff in Hp. destruct Hp as [_ Hx2].
  destruct x2 as [|c x2]; [exact Hrest|].
  cbn [all_chars] in Hx2. apply andb_true_iff in Hx2.
  cbn [String.append no_colon_start].
  rewrite (hex_is_not_colon c (proj1 Hx2)). reflexivity.
Qed.

Lemma hex_start_no_colon (x1 x2 w : string) (c : ascii) :
  all_chars Re.is_hex (x1 ++ String c x2) = true ->
  no_colon_start (String c x2 ++ w) = true.
Proof.
  rewrite all_chars_app. intros H. apply andb_true_iff in H.
  destruct H as [_ H]. cbn [all_chars] in H. apply andb_true_iff in H.
  cbn [String.append no_colon_start].
  rewrite (hex_is_not_colon c (proj1 H)). reflexivity.
Qed.

Lemma str_app_split (a b x1 x2 : string) (c : ascii) :
  (a ++ b)%string = (x1 ++ String c x2)%string ->
  (exists a2, a = (x1 ++ String c a2)%string /\ x2 = (a2 ++ b)%string)
  \/ (exists b1, x1 = (a ++ b1)%string /\ b = (b1 ++ String c x2)%string).
Proof.
  revert x1. induction a as [|y a IH]; intros x1 H.
  - right. exists x1. split; [reflexivity|exact H].
  - destruct x1 as [|z x1]; cbn [String.append] in H.
    + injection H as -> <-. left. exists a. split; reflexivity.
    + injection H as -> H. destruct (IH x1 H) as [[a2 [-> ->]]|[b1 [-> ->]]].
      * left. exists a2. split; reflexivity.
      * right. exists b1. split; reflexivity.
Qed.

Lemma hex_id_parts (g : string) :
  hex_id g = true ->
  all_chars Re.is_hex g = true /\ (4 <= String.length g <= 8)%nat.
Proof.
  unfold hex_id. intros H.
  apply andb_true_iff in H. destruct H as [H H8].
  apply andb_true_iff in H. destruct H as [Hall H4].
  apply Nat.leb_le in H4, H8. auto.
Qed.

Lemma match_here_lit (t : string) (r : list Re.atom) (s : string)
    (groups : list string) :
  Re.match_here (Re.Lit t :: r) s groups
  = match Text.strip_prefix t s with
    | Some s' => Re.match_here r s' groups
    | None => None
    end.
Proof. reflexivity. Qed.

Lemma match_here_many (lo : nat) (hi : option nat) (class : ascii -> bool)
    (group : bool) (r : list Re.atom) (s : string) (groups : list string) :
  Re.match_here (Re.Many lo hi class group :: r) s groups
  = Re.greedy class lo hi EmptyString O s
      (fun taken rest =>
         Re.match_here r rest (if group then groups ++ [taken] else groups)).
Proof. reflexivity. Qed.

Lemma strip_colon (z : string) :
  Text.strip_prefix ":" (":" ++ z) = Some z.
Proof. reflexivity. Qed.

Section StandardLine.

Variables bus vid pid rest : string.
Hypothesis bus_nonempty : bus <> EmptyString.
Hypothesis bus_token : all_chars Re.non_space bus = true.
Hypothesis vid_hex_id : hex_id vid = true.
Hypothesis pid_hex_id : hex_id pid = true.
Hypothesis rest_stops : stops Re.non_space rest = true.

Lemma last_group_matches (groups : list string) :
  Re.match_here [Re.Lit ":"; Re.Many 4 (Some 8%nat) Re.is_hex true]
    (":" ++ pid ++ rest) groups
  = Some (groups ++ [pid]).
Proof.
  destruct (hex_id_parts pid pid_hex_id) as [Hall [H4 H8]].
  cbn [Re.match_here Text.strip_prefix String.append Ascii.eqb Bool.eqb].
  apply (greedy_descend Re.is_hex 4 _ pid (Some 8%nat) EmptyString O rest);
    [exact Hall|intros h Hh; injection Hh as <-; cbn; lia|].
  cbn [String.append plus].
  rewrite greedy_stops by (apply stops_non_space_hex, rest_stops).
  destruct (Nat.leb_spec 4 (String.length pid)) as [_|Hlt]; [reflexivity|lia].
Qed.

Lemma both_groups_match :
  Re.match_here
    [Re.Lit ":"; Re.Many 4 (Some 8%nat) Re.is_hex true;
     Re.Lit ":"; Re.Many 4 (Some 8%nat) Re.is_hex true]
    (":" ++ vid ++ ":" ++ pid ++ rest) []
  = Some [vid; pid].
Proof.
  destruct (hex_id_parts vid vid_hex_id) as [Hall [H4 H8]].
  cbn [Re.match_here Text.strip_prefix String.append Ascii.eqb Bool.eqb].
  apply (greedy_descend Re.is_hex 4 _ vid (Some 8%nat) EmptyString O
           (":" ++ pid ++ rest));
    [exact Hall|intros h Hh; injection Hh as <-; cbn; lia|].
  cbn [String.append plus].
  rewrite greedy_stops by reflexivity.
  destruct (Nat.leb_spec 4 (String.length vid)) as [_|Hlt]; [|lia].
  apply (last_group_matches [vid]).
Qed.

Lemma no_match_after_colon (groups : list string) (p2 : string) :
  (exists p1, pid = (p1 ++ p2)%string) ->
  Re.match_here
    [Re.Lit ":"; Re.Many 4 (Some 8%nat) Re.is_hex true;
     Re.Lit ":"; Re.Many 4 (Some 8%nat) Re.is_hex true]
    (p2 ++ rest) groups
  = None.
Proof.
  intros [p1 Hp]. destruct (hex_id_parts pid pid_hex_id) as [Hall _].
  cbn [Re.match_here]. rewrite strip_colon_fails; [reflexivity|].
  apply (hex_suffix_no_colon pid rest p1 p2 Hall);
    [apply stops_non_space_no_colon, rest_stops|exact Hp].
Qed.

Lemma no_match_at_second_colon (groups : list string) :
  Re.match_here
    [Re.Lit ":"; Re.Many 4 (Some 8%nat) Re.is_hex true;
     Re.Lit ":"; Re.Many 4 (Some 8%nat) Re.is_hex true]
    (":" ++ pid ++ rest) groups
  = None.
Proof.
  destruct (hex_id_parts pid pid_hex_id) as [Hall _].
  rewrite match_here_lit, strip_colon, match_here_many.
  rewrite greedy_falls_back.
  - reflexivity.
  - apply stops_non_space_hex, rest_stops.
  - intros x1 c x2 t Hx.
    rewrite match_here_lit, strip_colon_fails; [reflexivity|].
    apply (hex_suffix_no_colon pid rest (x1 ++ String c EmptyString) x2 Hall).
    + apply stops_non_space_no_colon, rest_stops.
    + rewrite Hx, str_app_assoc. reflexivity.
Qed.

Lemma no_later_match (x1 x2 : string) (c : ascii) (groups : list string) :
  (":" ++ vid ++ ":" ++ pid)%string = (x1 ++ String c x2)%string ->
  Re.match_here
    [Re.Lit ":"; Re.Many 4 (Some 8%nat) Re.is_hex true;
     Re.Lit ":"; Re.Many 4 (Some 8%nat) Re.is_hex true]
    (x2 ++ rest) groups
  = None.
Proof.
  destruct (hex_id_parts vid vid_hex_id) as [Hvid [Hlen _]].
  intros Hx.
  destruct x1 as [|y x1]; cbn [String.append] in Hx; injection Hx as Hy Hx.
  - (* just after the first colon: the first identifier follows *)
    subst x2. destruct vid as [|v0 vid']; [cbn in Hlen; lia|].
    rewrite match_here_lit, strip_colon_fails; [reflexivity|].
    rewrite str_app_assoc.
    apply (hex_start_no_colon EmptyString vid' _ v0 Hvid).
  - destruct (str_app_split vid (":" ++ pid) x1 x2 c Hx)
      as [[v2 [Hv ->]]|[b1 [_ Hb]]].
    + destruct v2 as [|v0 v2].
      * (* at the second colon *)
        apply no_match_at_second_colon.
      * (* inside the first identifier *)
        rewrite match_here_lit, strip_colon_fails; [reflexivity|].
        rewrite str_app_assoc.
        apply (hex_start_no_colon (x1 ++ String c EmptyString) v2 _ v0).
        rewrite str_app_assoc. cbn [String.append]. rewrite <- Hv. exact Hvid.
    + destruct b1 as [|z b1]; cbn [String.append] in Hb; injection Hb as Hz Hb.
      * (* just after the second colon *)
        subst x2. apply no_match_after_colon. exists EmptyString. reflexivity.
      * (* inside the second identifier *)
        apply no_match_after_colon. exists (b1 ++ String c EmptyString)%string.
        rewrite Hb, str_app_assoc. reflexivity.
Qed.

Lemma standard_line_matches :
  Re.match_here HID_ID_pattern
    ("HID_ID=" ++ bus ++ ":" ++ vid ++ ":" ++ pid ++ rest) []
  = Some [vid; pid].
Proof.
  assert (E : (":" ++ vid ++ ":" ++ pid ++ rest)%string
              = ((":" ++ vid ++ ":" ++ pid) ++ rest)%string)
    by (rewrite !str_app_assoc; reflexivity).
  unfold HID_ID_pattern.
  rewrite match_here_lit.
  change (Text.strip_prefix "HID_ID="
            ("HID_ID=" ++ bus ++ ":" ++ vid ++ ":" ++ pid ++ rest))
    with (Some (bus ++ ":" ++ vid ++ ":" ++ pid ++ rest)%string).
  cbv beta iota. rewrite match_here_many.
  apply (greedy_descend Re.non_space 1 _ bus None EmptyString O
           (":" ++ vid ++ ":" ++ pid ++ rest));
    [exact bus_token|discriminate|].
  rewrite E, greedy_falls_back.
  - destruct bus as [|b0 bus']; [destruct (bus_nonempty eq_refl)|].
    cbn [String.length Nat.leb plus]. rewrite <- E.
    apply both_groups_match.
  - exact rest_stops.
  - intros x1 c x2 t Hx. apply (no_later_match x1 x2 c [] Hx).
Qed.

End StandardLine.

Lemma search_skips (pre line : string) :
  all_chars not_H pre = true ->
  Re.search HID_ID_pattern (pre ++ line) = Re.search HID_ID_pattern line.
Proof.
  induction pre as [|c pre IH]; [reflexivity|].
  cbn [all_chars String.append]. intros H. apply andb_true_iff in H.
  destruct H as [Hc Hpre]. unfold not_H in Hc. apply negb_true_iff in Hc.
  cbn [Re.search]. unfold HID_ID_pattern at 1. rewrite match_here_lit.
  cbn [Text.strip_prefix]. rewrite Ascii.eqb_sym, Hc. apply IH, Hpre.
Qed.

(** X21: the usual line is found.  In a text whose part before the line
    holds no capital H, the line HID_ID=bus:vid:pid, with a bus token
    without white space, identifiers of four to eight hexadecimal digits,
    and white space or the end of the text after it, yields the groups
    vid and pid. *)
Theorem HID_ID_standard_line (pre bus vid pid rest : string) :
  all_chars not_H pre = true ->
  bus <> EmptyString ->
  all_chars Re.non_space bus = true ->
  hex_id vid = true ->
  hex_id pid = true ->
  stops Re.non_space rest = true ->
  Re.search HID_ID_pattern
    (pre ++ "HID_ID=" ++ bus ++ ":" ++ vid ++ ":" ++ pid ++ rest)
  = Some [vid; pid].
Proof.
  intros Hpre Hbus Htoken Hvid Hpid Hrest.
  rewrite search_skips by exact Hpre.
  assert (Hm := standard_line_matches bus vid pid rest
                  Hbus Htoken Hvid Hpid Hrest).
  cbn [String.append] in *. cbn [Re.search]. rewrite Hm. reflexivity.
Qed.

Lemma HID_ID_standard_line_witness :
  all_chars not_H ("DRIVER=hid-generic" ++ String "010" EmptyString) = true
  /\ hex_id "0000045E" = true
  /\ hex_id "0000003B" = true
  /\ Re.search HID_ID_pattern
       (("DRIVER=hid-generic" ++ String "010" EmptyString)
          ++ "HID_ID=" ++ "0003" ++ ":" ++ "0000045E" ++ ":" ++ "0000003B"
          ++ String "010" "HID_NAME=Microsoft SideWinder Game Voice")
     = Some ["0000045E"; "0000003B"].
Proof.
  split; [reflexivity|]. split; [reflexivity|]. split; [reflexivity|].
  apply (HID_ID_standard_line
           ("DRIVER=hid-generic" ++ String "010" EmptyString)
           "0003" "0000045E" "0000003B"
           (String "010" "HID_NAME=Microsoft SideWinder Game Voice"));
    try reflexivity.
  discriminate.
Defined.

(** ** The scan *)

Lemma sorted_insert_perm (u : string) (l : list string) :
  Permutation (Text.insert_sorted u l) (u :: l).
Proof.
  induction l as [|v l IH]; cbn [Text.insert_sorted]; [apply Permutation_refl|].
  destruct (String.leb u v); [apply Permutation_refl|].
  apply (perm_trans (perm_skip v IH)). apply perm_swap.
Qed.

Lemma sorted_perm (l : list string) : Permutation (Text.sorted l) l.
Proof.
  induction l as [|u l IH]; cbn [Text.sorted]; [apply perm_nil|].
  apply (perm_trans (sorted_insert_perm u (Text.sorted l))).
  apply perm_skip, IH.
Qed.

Lemma sorted_insert_sorted (u : string) (l : list string) :
  Sorted (fun a b => String.leb a b = true) l ->
  Sorted (fun a b => String.leb a b = true) (Text.insert_sorted u l).
Proof.
  induction 1 as [|v l Hs IH Hhd]; cbn [Text.insert_sorted].
  - repeat constructor.
  - destruct (String.leb u v) eqn:Huv.
    + constructor; [constructor; assumption|]. constructor. exact Huv.
    + constructor; [exact IH|].
      assert (Hvu : String.leb v u = true)
        by (destruct (String.leb_total u v) as [H|H]; [congruence|exact H]).
      destruct l as [|w l]; cbn [Text.insert_sorted].
      * constructor. exact Hvu.
      * destruct (String.leb u w); constructor; [exact Hvu|].
        inversion Hhd. assumption.
Qed.

Lemma sorted_sorted (l : list string) :
  Sorted (fun a b => String.leb a b = true) (Text.sorted l).
Proof.
  induction l as [|u l IH]; cbn [Text.sorted]; [constructor|].
  apply sorted_insert_sorted, IH.
Qed.

Section Scan.

Variable fs : sysfs.
Variables vid_hex pid_hex : string.

Lemma scan_found_irrelevant (verbose : bool) (us : list string) :
  forall found found',
    snd (scan fs (Text.lower vid_hex) (Text.lower pid_hex) verbose us found)
    = snd (scan fs (Text.lower vid_hex) (Text.lower pid_hex) verbose us found').
Proof.
  induction us as [|u us IH]; intros found found'; [reflexivity|].
  cbn [scan].
  destruct (read_uevent fs u) as [msg|txt].
  - specialize (IH found found').
    destruct (scan fs _ _ verbose us found), (scan fs _ _ verbose us found').
    exact IH.
  - destruct (Re.search HID_ID_pattern txt) as [[|g1 [|g2 [|g3 gs]]]|];
      try apply IH.
    destruct (Text.from_end 3 (Text.split "/" u)) as [name|]; [|reflexivity].
    destruct (_ && _); [reflexivity|].
    match goal with
    | |- snd (let '(_, _) := scan _ _ _ _ _ ?f1 in _)
         = snd (let '(_, _) := scan _ _ _ _ _ ?f2 in _) =>
        specialize (IH f1 f2);
        destruct (scan fs (Text.lower vid_hex) (Text.lower pid_hex) verbose us f1),
                 (scan fs (Text.lower vid_hex) (Text.lower pid_hex) verbose us f2)
    end.
    exact IH.
Qed.

(** The outcome of the scan of a non-empty list, by what the first
    candidate holds. *)
Lemma scan_cons (verbose : bool) (u : string) (us : list string)
    (found : list (string * string * string)) :
  snd (scan fs (Text.lower vid_hex) (Text.lower pid_hex) verbose (u :: us) found)
  = match ids_of fs u with
    | None =>
        snd (scan fs (Text.lower vid_hex) (Text.lower pid_hex) verbose us [])
    | Some _ =>
        match node_of u with
        | None => inl IndexError
        | Some node =>
            if matching fs vid_hex pid_hex u then inr (Some node)
            else snd (scan fs (Text.lower vid_hex) (Text.lower pid_hex)
                        verbose us [])
        end
    end.
Proof.
  unfold matching, ids_of, node_of. cbn [scan].
  destruct (read_uevent fs u) as [msg|txt].
  - rewrite (scan_found_irrelevant verbose us [] found).
    destruct (scan fs _ _ verbose us found). reflexivity.
  - destruct (Re.search HID_ID_pattern txt) as [[|g1 [|g2 [|g3 gs]]]|];
      try apply scan_found_irrelevant.
    destruct (Text.from_end 3 (Text.split "/" u)) as [name|]; [|reflexivity].
    destruct (_ && _); [reflexivity|].
    rewrite (scan_found_irrelevant verbose us []
               (found ++ [(("/dev/" ++ name)%string, Text.lower g1, Text.lower g2)])).
    destruct (scan fs _ _ verbose us _). reflexivity.
Qed.

Lemma passed_cases (u : string) :
  passed fs vid_hex pid_hex u <->
  ids_of fs u = None
  \/ (matching fs vid_hex pid_hex u = false /\ exists node, node_of u = Some node).
Proof.
  unfold passed. split.
  - intros [Hm Hn]. destruct (ids_of fs u) as [ids|] eqn:Hi; [|now left].
    right. split; [exact Hm|].
    destruct (node_of u) as [node|]; [eauto|].
    destruct (Hn ltac:(discriminate) eq_refl).
  - intros [Hi|[Hm [node Hn]]].
    + split; [unfold matching; rewrite Hi; reflexivity|].
      intros H. destruct (H Hi).
    + split; [exact Hm|]. intros _. rewrite Hn. discriminate.
Qed.

Lemma scan_first_match (verbose : bool) (us : list string) (node : string) :
  snd (scan fs (Text.lower vid_hex) (Text.lower pid_hex) verbose us [])
  = inr (Some node)
  <-> exists before u after,
      us = before ++ u :: after
      /\ Forall (passed fs vid_hex pid_hex) before
      /\ matching fs vid_hex pid_hex u = true
      /\ node_of u = Some node.
Proof.
  induction us as [|u us IH].
  - split; [cbn; destruct verbose; discriminate|].
    intros [before [u [after [H _]]]]. destruct before; discriminate H.
  - rewrite scan_cons. split.
    + intros H.
      assert (Hrec : snd (scan fs (Text.lower vid_hex) (Text.lower pid_hex)
                            verbose us []) = inr (Some node) ->
                     passed fs vid_hex pid_hex u ->
                     exists before u0 after,
                       u :: us = before ++ u0 :: after
                       /\ Forall (passed fs vid_hex pid_hex) before
                       /\ matching fs vid_hex pid_hex u0 = true
                       /\ node_of u0 = Some node).
      { intros Hs Hp. apply IH in Hs.
        destruct Hs as [before [u0 [after [-> [Hb [Hm Hn]]]]]].
        exists (u :: before), u0, after.
        split; [reflexivity|]. split; [constructor; assumption|]. auto. }
      destruct (ids_of fs u) as [ids|] eqn:Hi.
      * destruct (node_of u) as [n|] eqn:Hn; [|discriminate].
        destruct (matching fs vid_hex pid_hex u) eqn:Hm.
        { injection H as ->. exists [], u, us.
          split; [reflexivity|]. split; [constructor|]. auto. }
        apply (Hrec H). apply passed_cases. right. eauto.
      * apply (Hrec H). apply passed_cases. now left.
    + intros [before [u0 [after [Hus [Hb [Hm Hn]]]]]].
      destruct before as [|b before]; cbn [app] in Hus; injection Hus as -> ->.
      * rewrite Hn, Hm.
        unfold matching in Hm. destruct (ids_of fs u0); [reflexivity|discriminate].
      * inversion Hb as [|? ? Hp Hb']; subst.
        assert (Hs : snd (scan fs (Text.lower vid_hex) (Text.lower pid_hex)
                            verbose (before ++ u0 :: after) [])
                     = inr (Some node))
          by (apply IH; exists before, u0, after; auto).
        apply passed_cases in Hp. destruct Hp as [->|[Hmb [n ->]]];
          [exact Hs|].
        rewrite Hmb. destruct (ids_of fs b); exact Hs.
Qed.

Lemma scan_no_match (verbose : bool) (us : list string) :
  snd (scan fs (Text.lower vid_hex) (Text.lower pid_hex) verbose us [])
  = inr None
  <-> Forall (passed fs vid_hex pid_hex) us.
Proof.
  induction us as [|u us IH].
  - split; [constructor|destruct verbose; reflexivity].
  - rewrite scan_cons. split.
    + intros H. constructor.
      * apply passed_cases.
        destruct (ids_of fs u) as [ids|]; [|now left]. right.
        destruct (node_of u) as [n|]; [|discriminate].
        destruct (matching fs vid_hex pid_hex u); [discriminate|eauto].
      * apply IH.
        destruct (ids_of fs u) as [ids|]; [|exact H].
        destruct (node_of u) as [n|]; [|discriminate].
        destruct (matching fs vid_hex pid_hex u); [discriminate|exact H].
    + intros H. inversion H as [|? ? Hp Hus]; subst.
      apply IH in Hus. apply passed_cases in Hp.
      destruct Hp as [->|[Hm [n ->]]]; [exact Hus|].
      rewrite Hm. destruct (ids_of fs u); exact Hus.
Qed.

End Scan.

(** ** The result of the discovery *)

(** X22: the discovery returns the first matching candidate.  The
    candidates of both glob patterns are probed once each in ascending
    order of their paths, and [find_hidraw_by_vidpid] returns a node
    exactly when some candidate matches while every candidate before it
    was passed; the node is the one derived from the path of that first
    match. *)
Theorem find_returns_first_match (fs : sysfs) (vid_hex pid_hex : string)
    (verbose : bool) (node : string) :
  (snd (find_hidraw_by_vidpid fs vid_hex pid_hex verbose) = inr (Some node)
   <-> exists before u after,
       Text.sorted (glob_device fs ++ glob_plain fs) = before ++ u :: after
       /\ Forall (passed fs vid_hex pid_hex) before
       /\ matching fs vid_hex pid_hex u = true
       /\ node_of u = Some node)
  /\ Permutation (Text.sorted (glob_device fs ++ glob_plain fs))
       (glob_device fs ++ glob_plain fs)
  /\ Sorted (fun a b => String.leb a b = true)
       (Text.sorted (glob_device fs ++ glob_plain fs)).
Proof.
  split; [|split; [apply sorted_perm|apply sorted_sorted]].
  unfold find_hidraw_by_vidpid. apply scan_first_match.
Qed.

(** X23: the discovery finds nothing exactly when every candidate is
    passed: each one is unreadable, holds no HID_ID, or holds identifiers
    other than the wanted ones (and has a path from which a node can be
    derived). *)
Theorem find_none_iff_all_passed (fs : sysfs) (vid_hex pid_hex : string)
    (verbose : bool) :
  snd (find_hidraw_by_vidpid fs vid_hex pid_hex verbose) = inr None
  <-> Forall (passed fs vid_hex pid_hex) (glob_device fs ++ glob_plain fs).
Proof.
  unfold find_hidraw_by_vidpid. rewrite scan_no_match.
  split; intros H; rewrite Forall_forall in *; intros u Hu; apply H.
  - apply (Permutation_in u (Permutation_sym (sorted_perm _)) Hu).
  - apply (Permutation_in u (sorted_perm _) Hu).
Qed.

Lemma scan_quiet (fs : sysfs) (v p : string) (us : list string) :
  forall found,
    fst (scan fs v p false us found) = []
    /\ snd (scan fs v p false us found) = snd (scan fs v p true us found).
Proof.
  induction us as [|u us IH]; intros found; [split; reflexivity|].
  cbn [scan].
  destruct (read_uevent fs u) as [msg|txt].
  - destruct (IH found) as [H1 H2].
    destruct (scan fs v p false us found), (scan fs v p true us found).
    cbn in *. subst. split; reflexivity.
  - destruct (Re.search HID_ID_pattern txt) as [[|g1 [|g2 [|g3 gs]]]|];
      try apply IH.
    destruct (Text.from_end 3 (Text.split "/" u)) as [name|];
      [|split; reflexivity].
    destruct (_ && _); [split; reflexivity|].
    match goal with
    | |- context [scan fs v p false us ?f] =>
        destruct (IH f) as [H1 H2];
        destruct (scan fs v p false us f), (scan fs v p true us f)
    end.
    cbn in *. subst. split; reflexivity.
Qed.

(** X24: [verbose] only decides what is printed.  The quiet discovery
    prints nothing and returns what the verbose one returns. *)
Theorem find_verbose_only_prints (fs : sysfs) (vid_hex pid_hex : string) :
  fst (find_hidraw_by_vidpid fs vid_hex pid_hex false) = []
  /\ snd (find_hidraw_by_vidpid fs vid_hex pid_hex false)
     = snd (find_hidraw_by_vidpid fs vid_hex pid_hex true).
Proof. unfold find_hidraw_by_vidpid. apply scan_quiet. Qed.

(** ** From the path to the node *)

Lemma split_nonempty (sep : ascii) (s : string) : Text.split sep s <> [].
Proof.
  induction s as [|c s IH]; cbn [Text.split]; [discriminate|].
  destruct (Ascii.eqb c sep); [discriminate|].
  destruct (Text.split sep s); discriminate.
Qed.

Lemma split_segment (a rest : string) :
  all_chars not_slash a = true ->
  Text.split "/" (a ++ String "/" rest) = a :: Text.split "/" rest.
Proof.
  induction a as [|c a IH]; [reflexivity|].
  cbn [all_chars String.append]. intros H. apply andb_true_iff in H.
  destruct H as [Hc Ha]. unfold not_slash in Hc. apply negb_true_iff in Hc.
  cbn [Text.split]. rewrite Hc, (IH Ha). reflexivity.
Qed.

Lemma split_last (a : string) :
  all_chars not_slash a = true -> Text.split "/" a = [a].
Proof.
  induction a as [|c a IH]; [reflexivity|].
  cbn [all_chars]. intros H. apply andb_true_iff in H.
  destruct H as [Hc Ha]. unfold not_slash in Hc. apply negb_true_iff in Hc.
  cbn [Text.split]. rewrite Hc, (IH Ha). reflexivity.
Qed.

Lemma split_device_uevent (name : string) :
  all_chars not_slash name = true ->
  Text.split "/" (device_uevent name)
  = [""; "sys"; "class"; "hidraw"; name; "device"; "uevent"]%string.
Proof.
  intros Hname. unfold device_uevent.
  change ("/sys/class/hidraw/" ++ name ++ "/device/uevent")%string
    with ("" ++ String "/" ("sys" ++ String "/" ("class" ++ String "/"
            ("hidraw" ++ String "/" (name ++ String "/"
               ("device" ++ String "/" "uevent"))))))%string.
  rewrite !split_segment by (try exact Hname; reflexivity).
  reflexivity.
Qed.

Lemma split_plain_uevent (name : string) :
  all_chars not_slash name = true ->
  Text.split "/" (plain_uevent name)
  = [""; "sys"; "class"; "hidraw"; name; "uevent"]%string.
Proof.
  intros Hname. unfold plain_uevent.
  change ("/sys/class/hidraw/" ++ name ++ "/uevent")%string
    with ("" ++ String "/" ("sys" ++ String "/" ("class" ++ String "/"
            ("hidraw" ++ String "/" (name ++ String "/" "uevent")))))%string.
  rewrite !split_segment by (try exact Hname; reflexivity).
  reflexivity.
Qed.

Lemma scan_single (fs : sysfs) (vid_hex pid_hex : string) (verbose : bool)
    (u node : string) :
  matching fs vid_hex pid_hex u = true ->
  node_of u = Some node ->
  snd (scan fs (Text.lower vid_hex) (Text.lower pid_hex) verbose [u] [])
  = inr (Some node).
Proof.
  intros Hm Hn. apply scan_first_match. exists [], u, [].
  split; [reflexivity|]. split; [constructor|]. auto.
Qed.

(** X25: which node a path gives.  The node is "/dev/" followed by the
    third component from the end of the path: for a match found under
    hidrawN/device/uevent that is /dev/hidrawN, but for a match found
    under hidrawN/uevent, the second glob pattern, it is /dev/hidraw
    whatever the device. *)
Theorem node_is_third_component_from_end (fs : sysfs)
    (vid_hex pid_hex name : string) (verbose : bool) :
  all_chars not_slash name = true ->
  node_of (device_uevent name) = Some ("/dev/" ++ name)%string
  /\ node_of (plain_uevent name) = Some "/dev/hidraw"
  /\ (glob_device fs = [device_uevent name] -> glob_plain fs = [] ->
      matching fs vid_hex pid_hex (device_uevent name) = true ->
      snd (find_hidraw_by_vidpid fs vid_hex pid_hex verbose)
      = inr (Some ("/dev/" ++ name)%string))
  /\ (glob_device fs = [] -> glob_plain fs = [plain_uevent name] ->
      matching fs vid_hex pid_hex (plain_uevent name) = true ->
      snd (find_hidraw_by_vidpid fs vid_hex pid_hex verbose)
      = inr (Some "/dev/hidraw")).
Proof.
  intros Hname.
  assert (Hdev : node_of (device_uevent name) = Some ("/dev/" ++ name)%string)
    by (unfold node_of; rewrite split_device_uevent by exact Hname;
        reflexivity).
  assert (Hplain : node_of (plain_uevent name) = Some "/dev/hidraw")
    by (unfold node_of; rewrite split_plain_uevent by exact Hname;
        reflexivity).
  split; [exact Hdev|]. split; [exact Hplain|]. split.
  - intros Hd Hp Hm. unfold find_hidraw_by_vidpid. rewrite Hd, Hp.
    apply scan_single; assumption.
  - intros Hd Hp Hm. unfold find_hidraw_by_vidpid. rewrite Hd, Hp.
    apply scan_single; assumption.
Qed.

(** ** The identifiers *)

Lemma lower_length (s : string) :
  String.length (Text.lower s) = String.length s.
Proof. induction s as [|c s IH]; cbn; [reflexivity|]. rewrite IH. reflexivity. Qed.

Lemma drop_length (n : nat) (s : string) :
  String.length (Text.drop n s) = (String.length s - n)%nat.
Proof.
  revert s. induction n as [|n IH]; intros [|c s]; cbn; try reflexivity.
  apply IH.
Qed.

Lemma last_chars_length (s : string) :
  (4 <= String.length s)%nat -> String.length (Text.last_chars 4 s) = 4%nat.
Proof. intros H. unfold Text.last_chars. rewrite drop_length. lia. Qed.

Lemma lower_char_idempotent (c : ascii) :
  Text.lower_char (Text.lower_char c) = Text.lower_char c.
Proof. destruct c as [[] [] [] [] [] [] [] []]; vm_compute; reflexivity. Qed.

Lemma lower_idempotent (s : string) : Text.lower (Text.lower s) = Text.lower s.
Proof.
  induction s as [|c s IH]; cbn; [reflexivity|].
  rewrite lower_char_idempotent, IH. reflexivity.
Qed.

Lemma ids_of_lengths (fs : sysfs) (u raw_vid raw_pid : string) :
  ids_of fs u = Some (raw_vid, raw_pid) ->
  (4 <= String.length raw_vid)%nat /\ (4 <= String.length raw_pid)%nat.
Proof.
  unfold ids_of. destruct (read_uevent fs u) as [msg|txt]; [discriminate|].
  destruct (Re.search HID_ID_pattern txt) as [groups|] eqn:Hs; [|discriminate].
  destruct (search_result _ _ _ Hs) as [before [rest [_ Hm]]].
  destruct (HID_ID_match_groups rest groups Hm) as [g1 [g2 [-> [H1 H2]]]].
  intros H. injection H as <- <-.
  apply hex_id_parts in H1, H2. rewrite !lower_length. lia.
Qed.

Lemma matching_lengths (fs : sysfs) (vid_hex pid_hex u : string) :
  matching fs vid_hex pid_hex u = true ->
  String.length vid_hex = 4%nat /\ String.length pid_hex = 4%nat.
Proof.
  unfold matching. destruct (ids_of fs u) as [[raw_vid raw_pid]|] eqn:Hi;
    [|discriminate].
  destruct (ids_of_lengths fs u raw_vid raw_pid Hi) as [Hv Hp].
  intros H. apply andb_true_iff in H. destruct H as [H1 H2].
  apply String.eqb_eq in H1, H2.
  apply (f_equal String.length) in H1, H2.
  rewrite last_chars_length, lower_length in H1, H2 by assumption.
  auto.
Qed.

(** X26: the wanted identifiers must have four characters.  The scan
    compares the last four digits of what it reads, so with a vendor or
    product identifier of any other length (for instance one written with
    its leading zeros, or without them) no candidate ever matches and the
    discovery never returns a node. *)
Theorem find_needs_four_digit_ids (fs : sysfs) (vid_hex pid_hex : string)
    (verbose : bool) (node : string) :
  String.length vid_hex <> 4%nat \/ String.length pid_hex <> 4%nat ->
  snd (find_hidraw_by_vidpid fs vid_hex pid_hex verbose) <> inr (Some node).
Proof.
  intros Hlen Hfound. unfold find_hidraw_by_vidpid in Hfound.
  apply scan_first_match in Hfound.
  destruct Hfound as [before [u [after [_ [_ [Hm _]]]]]].
  destruct (matching_lengths fs vid_hex pid_hex u Hm) as [Hv Hp].
  destruct Hlen as [H|H]; contradiction.
Qed.

(** The wanted identifiers are compared without regard to case. *)
Lemma find_ignores_case_of_arguments (fs : sysfs) (vid_hex pid_hex : string)
    (verbose : bool) :
  find_hidraw_by_vidpid fs vid_hex pid_hex verbose
  = find_hidraw_by_vidpid fs (Text.lower vid_hex) (Text.lower pid_hex) verbose.
Proof.
  unfold find_hidraw_by_vidpid. rewrite !lower_idempotent. reflexivity.
Qed.

(** ** Instances *)

Lemma HID_ID_groups_are_hex_ids_witness :
  Re.search HID_ID_pattern game_voice_uevent = Some ["0000045E"; "0000003B"]
  /\ exists g1 g2,
      ["0000045E"; "0000003B"]%string = [g1; g2]
      /\ hex_id g1 = true /\ hex_id g2 = true.
Proof.
  split; [reflexivity|].
  exact (HID_ID_groups_are_hex_ids game_voice_uevent
           ["0000045E"; "0000003B"]%string eq_refl).
Defined.

Lemma node_is_third_component_from_end_witness :
  all_chars not_slash "hidraw3" = true
  /\ matching sysfs_with_plain_path "045E" "003b" (plain_uevent "hidraw3") = true
  /\ snd (find_hidraw_by_vidpid sysfs_with_device_path "045E" "003b" true)
     = inr (Some "/dev/hidraw3")
  /\ snd (find_hidraw_by_vidpid sysfs_with_plain_path "045E" "003b" true)
     = inr (Some "/dev/hidraw").
Proof.
  split; [reflexivity|]. split; [reflexivity|]. split.
  - exact (proj1 (proj2 (proj2
             (node_is_third_component_from_end sysfs_with_device_path
                "045E" "003b" "hidraw3" true eq_refl)))
             eq_refl eq_refl eq_refl).
  - exact (proj2 (proj2 (proj2
             (node_is_third_component_from_end sysfs_with_plain_path
                "045E" "003b" "hidraw3" true eq_refl)))
             eq_refl eq_refl eq_refl).
Defined.

Lemma find_needs_four_digit_ids_witness :
  (String.length "0000045e" <> 4%nat \/ String.length "003b" <> 4%nat)
  /\ snd (find_hidraw_by_vidpid sysfs_with_device_path "0000045e" "003b" true)
     <> inr (Some "/dev/hidraw3").
Proof.
  assert (H : String.length "0000045e" <> 4%nat \/ String.length "003b" <> 4%nat)
    by (left; discriminate).
  split; [exact H|].
  exact (find_needs_four_digit_ids sysfs_with_device_path "0000045e" "003b"
           true "/dev/hidraw3" H).
Defined.
